(** * MonteCarlo: a shallow embedding of [src/module/MonteCarlo.py]

    The Python module defines three classes:
    - [Die]: numpy array of faces, a [weights] array and a pandas
      DataFrame [df] (index ['faces'], column ['weights']);
    - [Game]: a list of dice and a [results] DataFrame (or [None]);
    - [Analyzer]: statistics over [game.results].

    Python exceptions are modelled by an error monad [result]; Python and
    numpy floats by IEEE 754 binary64 values ([spec_float] with 53 bits of
    precision and [emax = 1024]: rounding to nearest even, infinities and
    NaN); the global [random] generator by an explicit stream of floats
    that is threaded through every call of [random.random()]. *)

From Stdlib Require Import ZArith String Ascii Bool Lia List Sorted Permutation.
From Stdlib Require Import Floats.SpecFloat.
Import ListNotations.
Open Scope string_scope.

(** ** Python exceptions and the error monad *)

Inductive exn : Type :=
| TypeError (msg : string)
| ValueError (msg : string)
| IndexError (msg : string)
| AttributeError (msg : string)
| OverflowError (msg : string).

Inductive result (A : Type) : Type :=
| Ok (a : A)
| Raise (e : exn).
Arguments Ok {A} a.
Arguments Raise {A} e.

Definition bind {A B} (c : result A) (k : A -> result B) : result B :=
  match c with
  | Ok a => k a
  | Raise e => Raise e
  end.

Notation "x <- c ;; k" := (bind c (fun x => k))
  (at level 61, c at next level, right associativity).
Notation "' p <- c ;; k" := (bind c (fun x => match x with p => k end))
  (at level 61, p pattern, c at next level, right associativity).

Definition is_ok {A} (r : result A) : bool :=
  match r with Ok _ => true | Raise _ => false end.

(** ** Outcome labels (faces)

    The faces this development models: Python ints, strings, and the float
    [nan].  [py_eq] is Python's [==] ([nan] is equal to nothing), [py_lt]
    is Python's [<] (ints and strings do not compare). *)

Inductive label : Type :=
| LInt (z : Z)
| LStr (s : string)
| LNaN.

Definition py_eq (a b : label) : bool :=
  match a, b with
  | LInt x, LInt y => Z.eqb x y
  | LStr x, LStr y => String.eqb x y
  | _, _ => false
  end.

Definition str_lt (x y : string) : bool :=
  match String.compare x y with Lt => true | _ => false end.

Definition py_lt (a b : label) : result bool :=
  match a, b with
  | LInt x, LInt y => Ok (Z.ltb x y)
  | LStr x, LStr y => Ok (str_lt x y)
  | LInt _, LNaN | LNaN, LInt _ | LNaN, LNaN => Ok false
  | _, _ => Raise (TypeError "'<' not supported between instances of 'str' and a number")
  end.

Definition is_nan (a : label) : bool :=
  match a with LNaN => true | _ => false end.

(** ** Python floats (IEEE 754 binary64) *)

Abbreviation float := spec_float.

Definition f64_prec : Z := 53.
Definition f64_emax : Z := 1024.

(** [x + y], [x * y], [x / y], [x < y] and [x <= y] on floats. *)
Definition fadd (x y : float) : float := SFadd f64_prec f64_emax x y.
Definition fmul (x y : float) : float := SFmul f64_prec f64_emax x y.
Definition fdiv (x y : float) : float := SFdiv f64_prec f64_emax x y.
Definition fltb (x y : float) : bool := SFltb x y.
Definition fleb (x y : float) : bool := SFleb x y.

(** [0.0] and [1.0]. *)
Definition f_zero : float := S754_zero false.
Definition f_one : float := SFone f64_prec f64_emax.

(** [math.isfinite(x)]. *)
Definition isfinite (x : float) : bool :=
  match x with
  | S754_zero _ | S754_finite _ _ _ => true
  | _ => false
  end.

(** [float(n)] for an int [n] that does not overflow: the nearest
    binary64 value, ties to even. *)
Definition round_Z (z : Z) : float := binary_normalize f64_prec f64_emax z 0 false.

(** [float(n)] for any int [n] ([PyLong_AsDouble]): the rounded value, or
    [OverflowError] when it rounds to [2 ** 1024] or beyond, which happens
    exactly from [2 ** 1024 - 2 ** 970] on (the midpoint between the
    largest finite float and [2 ** 1024]; ties go to the even
    [2 ** 1024]). *)
Definition int_to_float (z : Z) : result float :=
  if Z.leb (2 ^ 1024 - 2 ^ 970) (Z.abs z) then
    Raise (OverflowError "int too large to convert to float")
  else Ok (round_Z z).

(** [x == n] for a float [x] and an int [n]: Python and numpy compare the
    exact values. *)
Definition float_eq_int (x : float) (z : Z) : bool :=
  match x with
  | S754_zero _ => Z.eqb z 0
  | S754_finite s m e =>
      let v := cond_Zopp s (Zpos m) in
      if Z.leb 0 e then Z.eqb (Z.shiftl v e) z
      else Z.eqb v (Z.shiftl z (- e))
  | _ => false
  end.

(** [n / d] for two ints of at most 53 bits. *)
Definition f_ratio (n d : Z) : float := fdiv (round_Z n) (round_Z d).

(** Python objects passed as arguments: the [faces] argument of
    [Die.__init__] and the [new_weight] argument of [change_weight]. *)

Inductive pyobj : Type :=
| PInt (z : Z)
| PFloat (x : float)
| PBool (b : bool)
| PStr (s : string)
| PNone
| PList (xs : list label)
| PNdarray (xs : list label).

(** [isinstance(x, (int, float))] ([bool] is a subclass of [int]). *)
Definition is_int_or_float (o : pyobj) : bool :=
  match o with
  | PInt _ | PFloat _ | PBool _ => true
  | _ => false
  end.

(** pandas 3 refuses to upcast a float64 column on assignment. *)
Definition invalid_float64 : exn := TypeError "Invalid value for dtype 'float64'".

(** The value a float64 column stores when a scalar is assigned into it
    (pandas 3, [np_can_hold_element]): a float is stored as it is; an int
    is cast with [np.float64(n)] (which raises [OverflowError] past the
    float range) and kept only when the cast equals [n]; anything else,
    [bool] included, cannot be held and raises [TypeError]. *)
Definition float64_setitem (o : pyobj) : result float :=
  match o with
  | PFloat x => Ok x
  | PInt z =>
      casted <- int_to_float z ;;
      if float_eq_int casted z then Ok casted else Raise invalid_float64
  | _ => Raise invalid_float64
  end.

(** [faces.count]: lists have the method; numpy arrays do not. *)
Definition getattr_count (o : pyobj) : result (label -> nat) :=
  match o with
  | PList xs => Ok (fun x => length (filter (py_eq x) xs))
  | PNdarray _ => Raise (AttributeError "'numpy.ndarray' object has no attribute 'count'")
  | _ => Raise (AttributeError "object has no attribute 'count'")
  end.

(** Python's short-circuiting [any] over a generator whose body may raise. *)
Fixpoint py_any {A} (p : A -> result bool) (xs : list A) : result bool :=
  match xs with
  | [] => Ok false
  | x :: r => b <- p x ;; if b then Ok true else py_any p r
  end.

(** ** The random generator and [random.choices] (CPython 3.11) *)

Record rng : Type := mkRng { rand : nat -> float; pos : nat }.

(** [random.random()]: the next draw of the stream. *)
Definition random (g : rng) : float * rng :=
  (rand g (pos g), mkRng (rand g) (S (pos g))).

(** [itertools.accumulate]. *)
Fixpoint acc_from (a : float) (ws : list float) : list float :=
  a :: match ws with
       | [] => []
       | w :: r => acc_from (fadd a w) r
       end.

Definition accumulate (ws : list float) : list float :=
  match ws with
  | [] => []
  | w :: r => acc_from w r
  end.

Fixpoint last_opt {A} (xs : list A) : option A :=
  match xs with
  | [] => None
  | [x] => Some x
  | _ :: r => last_opt r
  end.

(** [bisect.bisect_right(a, x, lo, hi)]: the [while lo < hi] loop halves
    [hi - lo] at each turn, so [hi - lo] turns are enough. *)
Fixpoint bisect_loop (fuel : nat) (a : list float) (x : float) (lo hi : nat) : nat :=
  match fuel with
  | O => lo
  | S f =>
      if Nat.ltb lo hi then
        let mid := Nat.div (lo + hi) 2 in
        if fltb x (nth mid a f_zero) then bisect_loop f a x lo mid
        else bisect_loop f a x (S mid) hi
      else lo
  end.

Definition bisect_right (a : list float) (x : float) (lo hi : nat) : nat :=
  bisect_loop (hi - lo) a x lo hi.

(** [population[i]] (raises out of range). *)
Definition py_index {A} (xs : list A) (i : nat) : result A :=
  match nth_error xs i with
  | Some x => Ok x
  | None => Raise (IndexError "index out of range")
  end.

(** [[population[bisect(cum_weights, random() * total, 0, hi)]
      for i in _repeat(None, k)]] *)
Fixpoint draw_k (k : nat) (population : list label) (cum : list float)
    (total : float) (hi : nat) (g : rng) : result (list label * rng) :=
  match k with
  | O => Ok ([], g)
  | S k' =>
      let (u, g1) := random g in
      x <- py_index population (bisect_right cum (fmul u total) 0 hi) ;;
      '(rest, g2) <- draw_k k' population cum total hi g1 ;;
      Ok (x :: rest, g2)
  end.

(** [random.choices(population, weights=weights, k=k)]: [total] is
    [cum_weights[-1] + 0.0]; both of its checks come before [k] is used,
    and [_repeat(None, k)] yields nothing for [k <= 0]. *)
Definition choices (population : list label) (weights : list float) (k : Z)
    (g : rng) : result (list label * rng) :=
  let n := length population in
  let cum_weights := accumulate weights in
  if negb (Nat.eqb (length cum_weights) n) then
    Raise (ValueError "The number of weights does not match the population")
  else
    match last_opt cum_weights with
    | None => Raise (IndexError "list index out of range")
    | Some last =>
        let total := fadd last f_zero in
        if fleb total f_zero then
          Raise (ValueError "Total of weights must be greater than zero")
        else if negb (isfinite total) then
          Raise (ValueError "Total of weights must be finite")
        else draw_k (Z.to_nat k) population cum_weights total (n - 1) g
    end.

(** ** class Die *)

(** A die object: [self.faces] (a numpy array), [self.weights] (a numpy
    array) and [self.df] (index ['faces'], column ['weights'], one row per
    face in order). *)
Record Die : Type := mkDie {
  faces : list label;
  weights : list float;
  df : list (label * float)
}.

(** Lines 31-33 of [__init__]: the fields assigned once the checks pass. *)
Definition die_fields (xs : list label) : Die :=
  let ws := repeat f_one (length xs) in
  mkDie xs ws (combine xs ws).

(** [Die.__init__(faces)]. *)
Definition Die_init (faces_arg : pyobj) : result Die :=
  match faces_arg with
  | PNdarray xs =>
      dup <- py_any (fun face =>
                       count <- getattr_count faces_arg ;;
                       Ok (Nat.ltb 1 (count face))) xs ;;
      if dup then Raise (ValueError "Faces must be distinct.")
      else Ok (die_fields xs)
  | _ => Raise (TypeError "Faces must be a numpy array.")
  end.

(** [face in ndarray] is [(ndarray == face).any()]. *)
Definition ndarray_contains (xs : list label) (x : label) : bool :=
  existsb (py_eq x) xs.

(** [self.df.loc[face, 'weights'] = q]. *)
Definition df_set (rows : list (label * float)) (face : label) (q : float)
    : list (label * float) :=
  map (fun kv => if py_eq (fst kv) face then (fst kv, q) else kv) rows.

(** [Die.change_weight(face, new_weight)]. *)
Definition change_weight (d : Die) (face : label) (new_weight : pyobj)
    : result Die :=
  if negb (ndarray_contains (faces d) face) then
    Raise (IndexError "Face not found in die.")
  else if negb (is_int_or_float new_weight) then
    Raise (TypeError "Weight must be a numeric value.")
  else
    q <- float64_setitem new_weight ;;
    Ok (mkDie (faces d) (weights d) (df_set (df d) face q)).

(** [Die.roll(times)]: [random.choices(self.faces,
    weights=self.df['weights'], k=times)]. *)
Definition roll (d : Die) (times : Z) (g : rng) : result (list label * rng) :=
  choices (faces d) (map snd (df d)) times g.

(** ** class Game *)

(** A wide DataFrame: column labels, row index (named [index_name]) and
    the rows. *)
Record DataFrame : Type := mkFrame {
  columns : list string;
  index : list Z;
  index_name : string;
  rows : list (list label)
}.

Record Game : Type := mkGame {
  dice : list Die;
  results : option DataFrame
}.

(** [Game.__init__(dice)]: the dice are typed here, so the [isinstance]
    test passes; [self.results = None]. *)
Definition Game_init (ds : list Die) : Game := mkGame ds None.

Fixpoint digits (fuel n : nat) (acc : string) : string :=
  match fuel with
  | O => acc
  | S f =>
      let acc' := String (ascii_of_nat (48 + Nat.modulo n 10)) acc in
      if Nat.ltb n 10 then acc' else digits f (Nat.div n 10) acc'
  end.

(** [str(i)] for a natural number. *)
Definition str_of_nat (n : nat) : string := digits (S n) n EmptyString.

(** [f"Die {i}"]. *)
Definition die_column (i : nat) : string := "Die " ++ str_of_nat i.

(** One pass of the inner loop: [die.roll(1)[0]] for each die in order. *)
Fixpoint roll_each (ds : list Die) (g : rng) : result (list label * rng) :=
  match ds with
  | [] => Ok ([], g)
  | d :: ds' =>
      '(outs, g1) <- roll d 1 g ;;
      outcome <- py_index outs 0 ;;
      '(rest, g2) <- roll_each ds' g1 ;;
      Ok (outcome :: rest, g2)
  end.

(** The outer loop [for roll in range(rolls)]. *)
Fixpoint play_rolls (n : nat) (ds : list Die) (g : rng)
    : result (list (list label) * rng) :=
  match n with
  | O => Ok ([], g)
  | S n' =>
      '(row, g1) <- roll_each ds g ;;
      '(rest, g2) <- play_rolls n' ds g1 ;;
      Ok (row :: rest, g2)
  end.

(** [Game.play(rolls)]: the new [self.results] is the DataFrame built
    from the rows, columns ["Die 0"], ["Die 1"], ..., index
    [range(1, len + 1)] named ['Roll']. *)
Definition play (g : Game) (rolls : Z) (gen : rng) : result (Game * rng) :=
  '(res, gen') <- play_rolls (Z.to_nat rolls) (dice g) gen ;;
  let frame :=
    mkFrame (map die_column (seq 0 (length (dice g))))
            (map Z.of_nat (seq 1 (length res))) "Roll" res in
  Ok (mkGame (dice g) (Some frame), gen').

(** A long DataFrame: a (Roll, Die) MultiIndex and the 'Outcome' column. *)
Record NarrowFrame : Type := mkNarrow {
  n_index : list (Z * string);
  n_index_names : list string;
  n_outcome : list label
}.

Inductive shown : Type :=
| Wide (t : DataFrame)
| Narrow (t : NarrowFrame).

(** Instance attributes of a [Game] object. *)
Inductive game_attr : Type :=
| GADice (ds : list Die)
| GAResults (r : option DataFrame).

Definition game_getattr (g : Game) (name : string) : result game_attr :=
  if String.eqb name "dice" then Ok (GADice (dice g))
  else if String.eqb name "results" then Ok (GAResults (results g))
  else Raise (AttributeError ("'Game' object has no attribute '" ++ name ++ "'")).

(** [wide.melt(ignore_index=False, var_name='Die', value_name='Outcome')]
    then [reset_index()] and [set_index(['Roll', 'Die'])]: the columns are
    stacked one after the other. *)
Definition melt (t : DataFrame) : NarrowFrame :=
  let cells :=
    flat_map (fun jc =>
                map (fun ir => ((fst ir, snd jc), nth (fst jc) (snd ir) LNaN))
                    (combine (index t) (rows t)))
             (combine (seq 0 (length (columns t))) (columns t)) in
  mkNarrow (map fst cells) ["Roll"; "Die"] (map snd cells).

(** [Game.show_results(form)]. *)
Definition show_results (g : Game) (form : string) : result shown :=
  match results g with
  | None => Raise (ValueError "No results available. Please play the game first.")
  | Some t =>
      if String.eqb form "wide" then Ok (Wide t)
      else if String.eqb form "narrow" then
        w <- game_getattr g "wide_results" ;;
        match w with
        | GAResults (Some t') => Ok (Narrow (melt t'))
        | _ => Raise (AttributeError "object has no attribute 'melt'")
        end
      else Raise (ValueError "Invalid form. Choose 'wide' or 'narrow'.")
  end.

(** ** class Analyzer *)

Record Analyzer : Type := mkAnalyzer { game : Game }.

(** The argument of [Analyzer.__init__]: a [Game] or any other object. *)
Inductive analyzer_arg : Type :=
| AGame (g : Game)
| ANotGame (o : pyobj).

(** [Analyzer.__init__(game)]. *)
Definition Analyzer_init (a : analyzer_arg) : result Analyzer :=
  match a with
  | ANotGame _ => Raise (ValueError "Input must be a Game object.")
  | AGame g =>
      match results g with
      | None => Raise (ValueError "No game results available. Please play the game first.")
      | Some _ => Ok (mkAnalyzer g)
      end
  end.

(** [self.game.results] used as a DataFrame. *)
Definition game_results (a : Analyzer) : result DataFrame :=
  match results (game a) with
  | Some t => Ok t
  | None => Raise (AttributeError "'NoneType' object has no attribute")
  end.

Fixpoint distinct (xs : list label) : list label :=
  match xs with
  | [] => []
  | x :: r => if existsb (py_eq x) r then distinct r else x :: distinct r
  end.

(** [Series.nunique()]: distinct values, NaN dropped. *)
Definition nunique (row : list label) : nat :=
  length (distinct (filter (fun x => negb (is_nan x)) row)).

(** [Analyzer.jackpot()]: [sum(results.nunique(axis=1) == 1)]. *)
Definition jackpot (a : Analyzer) : result nat :=
  t <- game_results a ;;
  Ok (length (filter (fun r => Nat.eqb (nunique r) 1) (rows t))).

Fixpoint map_result {A B} (f : A -> result B) (xs : list A) : result (list B) :=
  match xs with
  | [] => Ok []
  | x :: r => y <- f x ;; ys <- map_result f r ;; Ok (y :: ys)
  end.

(** [DataFrame.apply(f, axis=1)] for an [f] returning a tuple: one tuple
    per row.  On a frame with rows but no columns pandas takes its
    empty-axis path and builds [Series((), index=...)], which raises. *)
Definition apply_rows (f : list label -> result (list label)) (t : DataFrame)
    : result (list (list label)) :=
  match columns t, rows t with
  | [], _ :: _ => Raise (ValueError "Length of values (0) does not match length of index")
  | _, _ => map_result f (rows t)
  end.

(** [sorted(row)]: a stable insertion sort over Python's [<].  (Any
    comparison sort raises on a row holding both a str and a number, since
    it has to compare two neighbours of different types.) *)
Fixpoint insert_sorted (x : label) (ys : list label) : result (list label) :=
  match ys with
  | [] => Ok [x]
  | y :: r =>
      b <- py_lt x y ;;
      if b then Ok (x :: y :: r)
      else (r' <- insert_sorted x r ;; Ok (y :: r'))
  end.

Fixpoint sorted_aux (acc xs : list label) : result (list label) :=
  match xs with
  | [] => Ok acc
  | x :: r => acc' <- insert_sorted x acc ;; sorted_aux acc' r
  end.

Definition py_sorted (xs : list label) : result (list label) := sorted_aux [] xs.

Fixpoint tuple_eq (a b : list label) : bool :=
  match a, b with
  | [], [] => true
  | x :: a', y :: b' => py_eq x y && tuple_eq a' b'
  | _, _ => false
  end.

Fixpoint vc_add (k : list label) (acc : list (list label * nat))
    : list (list label * nat) :=
  match acc with
  | [] => [(k, 1%nat)]
  | (k', c) :: r => if tuple_eq k k' then (k', S c) :: r else (k', c) :: vc_add k r
  end.

(** [Series.value_counts()]: one (value, count) pair per distinct value,
    in first-occurrence order (pandas then orders the pairs by count). *)
Definition value_counts (xs : list (list label)) : list (list label * nat) :=
  fold_left (fun acc k => vc_add k acc) xs [].

(** [Analyzer.combo_counts()]: the ['Count'] column indexed by the sorted
    tuples. *)
Definition combo_counts (a : Analyzer) : result (list (list label * nat)) :=
  t <- game_results a ;;
  combos <- apply_rows py_sorted t ;;
  Ok (value_counts combos).

(** [Analyzer.permute_counts()]: the same over [tuple(row)]. *)
Definition permute_counts (a : Analyzer) : result (list (list label * nat)) :=
  t <- game_results a ;;
  perms <- apply_rows (fun row => Ok row) t ;;
  Ok (value_counts perms).


(** A fair test stream: every draw of [random()] is [0]. *)
Definition zero_rng : rng := mkRng (fun _ => f_zero) 0.

(** A test stream: the draws [0/7], [1/7], ..., [6/7], then [0.0]. *)
Definition sevenths_rng : rng :=
  mkRng (fun n => nth n (map (fun i => f_ratio (Z.of_nat i) 7) (seq 0 7)) f_zero) 0.

Example die_column_12 : die_column 12 = "Die 12".
Proof. reflexivity. Qed.

Example sorted_ints :
  py_sorted [LInt 3; LInt 1; LInt 2] = Ok [LInt 1; LInt 2; LInt 3].
Proof. reflexivity. Qed.

Example play_two_dice :
  match play (Game_init [die_fields [LInt 1; LInt 2]; die_fields [LInt 5]]) 2
             (mkRng (fun n => if Nat.eqb n 0 then f_ratio 3 4 else f_zero) 0) with
  | Ok (g, _) => results g
  | Raise _ => None
  end
  = Some (mkFrame ["Die 0"; "Die 1"] [1%Z; 2%Z] "Roll"
                  [[LInt 2; LInt 5]; [LInt 1; LInt 5]]).
Proof. vm_compute. reflexivity. Qed.

(** ** Auxiliary predicates *)

(** [random.choices] does not raise on this die: the DataFrame holds one
    weight per face and the float total [cum_weights[-1] + 0.0] is
    positive and finite. *)
Definition die_rollable (d : Die) : bool :=
  Nat.eqb (length (df d)) (length (faces d)) &&
  match last_opt (accumulate (map snd (df d))) with
  | Some last =>
      let total := fadd last f_zero in
      negb (fleb total f_zero) && isfinite total
  | None => false
  end.

(** Successive [change_weight] calls on one die. *)
Fixpoint change_weights (d : Die) (calls : list (label * pyobj)) : result Die :=
  match calls with
  | [] => Ok d
  | (face, w) :: r => d' <- change_weight d face w ;; change_weights d' r
  end.

(** The argument of the last call in [calls] that named a face equal to
    [x] ([df.loc[face]] selects the rows whose label equals [face]). *)
Fixpoint last_set (x : label) (calls : list (label * pyobj)) : option pyobj :=
  match calls with
  | [] => None
  | (f, w) :: r =>
      match last_set x r with
      | Some w' => Some w'
      | None => if py_eq x f then Some w else None
      end
  end.



(** ** Analyzer.face_counts_per_roll *)

(** A DataFrame of counts: one column per face, one row per roll. *)
Record CountFrame : Type := mkCounts {
  c_columns : list label;
  c_index : list Z;
  c_index_name : string;
  c_rows : list (list nat)
}.

(** The key equality of pandas' hash tables: [==], except that every NaN
    matches every NaN. *)
Definition same_key (a b : label) : bool := py_eq a b || (is_nan a && is_nan b).

(** [Series.unique()]: the first occurrence of each value, in order (NaN
    kept, once). *)
Fixpoint unique_aux (seen xs : list label) : list label :=
  match xs with
  | [] => []
  | x :: r =>
      if existsb (same_key x) seen then unique_aux seen r
      else x :: unique_aux (x :: seen) r
  end.

(** [results.stack()] (pandas 3): the cells row after row, NaN kept. *)
Definition stack (t : DataFrame) : list label := concat (rows t).

(** [row.value_counts()], [fillna(0)] and [reindex(columns=all_faces,
    fill_value=0)]: how often each face of [all_faces] occurs in the row. *)
Definition row_face_counts (all_faces row : list label) : list nat :=
  map (fun f => length (filter (py_eq f) row)) all_faces.

(** [Analyzer.face_counts_per_roll()]. *)
Definition face_counts_per_roll (a : Analyzer) : result CountFrame :=
  t <- game_results a ;;
  let all_faces := unique_aux [] (stack t) in
  Ok (mkCounts all_faces (index t) "Roll" (map (row_face_counts all_faces) (rows t))).

(** ** Reading the results *)

(** [counts.loc[k, 'Count']] for a tuple [k], 0 when absent. *)
Definition vc_lookup (k : list label) (vc : list (list label * nat)) : nat :=
  match find (fun kc => tuple_eq k (fst kc)) vc with
  | Some (_, c) => c
  | None => 0%nat
  end.

Definition label_eq_dec (a b : label) : {a = b} + {a <> b}.
Proof. decide equality; [apply Z.eq_dec | apply string_dec]. Defined.

Definition row_eq_dec (a b : list label) : {a = b} + {a <> b} :=
  list_eq_dec label_eq_dec a b.

Definition nan_free (r : list label) : bool := forallb (fun x => negb (is_nan x)) r.

(** A trial whose dice all show one face. *)
Definition all_same (r : list label) : bool :=
  match r with
  | [] => false
  | x :: r' => forallb (py_eq x) r'
  end.

(** Whether [sorted(row)] succeeds and gives the tuple [k]. *)
Definition sorts_to (k r : list label) : bool :=
  match py_sorted r with
  | Ok s => if row_eq_dec s k then true else false
  | Raise _ => false
  end.

(** [not (b < a)], on labels that are not NaN. *)
Definition sort_le (a b : label) : Prop :=
  is_nan a = false /\ is_nan b = false /\ py_lt b a = Ok false.

Definition not_nan (x : label) : Prop := is_nan x = false.

(** ** Properties *)

(** C1 (Die.__init__): on every non-empty numpy array of faces, distinct
    or not, the constructor raises [AttributeError], because the
    duplicate test calls [faces.count], a method numpy arrays lack.  So
    neither the success path (weights 1.0) nor the duplicate error is
    reached. *)
Theorem Die_init_nonempty_ndarray_raises :
  forall (x : label) (xs : list label),
    Die_init (PNdarray (x :: xs))
    = Raise (AttributeError "'numpy.ndarray' object has no attribute 'count'").
Proof. intros x xs. reflexivity. Qed.

(** Only the empty array passes, and a list is refused with [TypeError]. *)
Lemma Die_init_empty : Die_init (PNdarray []) = Ok (die_fields []).
Proof. reflexivity. Qed.

Lemma Die_init_list : forall xs,
  Die_init (PList xs) = Raise (TypeError "Faces must be a numpy array.").
Proof. reflexivity. Qed.

(** C2 (Game.show_results): once [results] holds a table,
    [show_results('narrow')] raises [AttributeError]: it reads
    [self.wide_results], an attribute a [Game] never has, so no long-form
    table is returned. *)
Theorem show_results_narrow_raises :
  forall (g : Game) (t : DataFrame),
    results g = Some t ->
    show_results g "narrow"
    = Raise (AttributeError "'Game' object has no attribute 'wide_results'").
Proof. intros g t Ht. unfold show_results. rewrite Ht. reflexivity. Qed.

Lemma show_results_narrow_raises_witness :
  results (mkGame [] (Some (mkFrame [] [1%Z; 2%Z] "Roll" [[]; []])))
    = Some (mkFrame [] [1%Z; 2%Z] "Roll" [[]; []]) /\
  show_results (mkGame [] (Some (mkFrame [] [1%Z; 2%Z] "Roll" [[]; []]))) "narrow"
    = Raise (AttributeError "'Game' object has no attribute 'wide_results'").
Proof.
  split; [reflexivity |].
  apply (show_results_narrow_raises _ (mkFrame [] [1%Z; 2%Z] "Roll" [[]; []])).
  reflexivity.
Defined.

(** C5 (show_results, Analyzer.__init__): while [results] is [None] (the
    state [Game.__init__] leaves and only a successful [play] changes),
    [show_results] raises the no-results [ValueError] for every [form],
    and so does [Analyzer.__init__]. *)
Theorem no_results_raise :
  forall g : Game,
    results g = None ->
    (forall form, show_results g form
       = Raise (ValueError "No results available. Please play the game first.")) /\
    Analyzer_init (AGame g)
    = Raise (ValueError "No game results available. Please play the game first.").
Proof.
  intros g Hg. split.
  - intros form. unfold show_results. rewrite Hg. reflexivity.
  - simpl. rewrite Hg. reflexivity.
Qed.

Lemma no_results_raise_witness :
  results (Game_init [die_fields []]) = None /\
  Analyzer_init (AGame (Game_init [die_fields []]))
  = Raise (ValueError "No game results available. Please play the game first.").
Proof.
  split; [reflexivity |].
  apply (proj2 (no_results_raise (Game_init [die_fields []]) eq_refl)).
Defined.

(** Only a successful [play] fills [results]. *)
Lemma play_sets_results : forall g n gen g' gen',
  play g n gen = Ok (g', gen') -> exists t, results g' = Some t.
Proof.
  intros g n gen g' gen' H. unfold play in H.
  destruct (play_rolls (Z.to_nat n) (dice g) gen) as [[res g1] | e]; simpl in H;
    [| discriminate].
  injection H as <- _. eexists. reflexivity.
Qed.

Lemma acc_from_length : forall ws a, length (acc_from a ws) = S (length ws).
Proof. induction ws as [| w ws IH]; intros a; simpl; [reflexivity | rewrite IH; reflexivity]. Qed.

Lemma accumulate_length : forall ws, length (accumulate ws) = length ws.
Proof. intros [| w ws]; simpl; [reflexivity | apply acc_from_length]. Qed.

Lemma last_opt_nonempty : forall {A} (xs : list A) a, last_opt xs = Some a -> xs <> [].
Proof. intros A [| x xs] a H; [discriminate | discriminate]. Qed.

(** On a rollable die [roll] passes [random.choices]' checks, whatever the
    count, and goes on to the draws. *)
Lemma roll_rollable : forall d,
  die_rollable d = true ->
  (1 <= length (faces d))%nat /\
  exists total, forall k gen,
    roll d k gen = draw_k (Z.to_nat k) (faces d) (accumulate (map snd (df d))) total
                          (length (faces d) - 1) gen.
Proof.
  intros d H. unfold die_rollable in H. apply andb_prop in H as [E H].
  apply Nat.eqb_eq in E.
  destruct (last_opt (accumulate (map snd (df d)))) as [last |] eqn:Hl; [| discriminate].
  apply andb_prop in H as [Hp Hf]. apply negb_true_iff in Hp.
  split.
  { apply last_opt_nonempty in Hl.
    destruct (accumulate (map snd (df d))) eqn:Ha; [congruence |].
    rewrite <- E, <- (length_map snd (df d)), <- accumulate_length, Ha. simpl; lia. }
  exists (fadd last f_zero). intros k gen.
  unfold roll, choices. rewrite accumulate_length, length_map, E, Nat.eqb_refl, Hl.
  cbv zeta. rewrite Hp, Hf. reflexivity.
Qed.

(** On any other die [roll] raises, whatever the count. *)
Lemma roll_not_rollable : forall d k gen,
  die_rollable d = false -> exists e, roll d k gen = Raise e.
Proof.
  intros d k gen H. unfold die_rollable in H. unfold roll, choices.
  rewrite accumulate_length, length_map.
  destruct (Nat.eqb (length (df d)) (length (faces d))); cbn [andb negb] in H |- *;
    [| eexists; reflexivity].
  destruct (last_opt (accumulate (map snd (df d)))) as [last |]; [| eexists; reflexivity].
  cbv zeta in H |- *.
  destruct (fleb (fadd last f_zero) f_zero); [eexists; reflexivity |].
  cbn [negb andb] in H. rewrite H. eexists; reflexivity.
Qed.

(** A successful [roll] went through [random.choices]' checks. *)
Lemma roll_ok_draw : forall d k gen xs g',
  roll d k gen = Ok (xs, g') ->
  die_rollable d = true /\
  exists total,
    draw_k (Z.to_nat k) (faces d) (accumulate (map snd (df d))) total
           (length (faces d) - 1) gen = Ok (xs, g') /\
    (forall k' gen0, roll d k' gen0 =
       draw_k (Z.to_nat k') (faces d) (accumulate (map snd (df d))) total
              (length (faces d) - 1) gen0).
Proof.
  intros d k gen xs g' H.
  destruct (die_rollable d) eqn:Hd.
  - destruct (roll_rollable d Hd) as [_ [total Heq]].
    split; [reflexivity |]. exists total. split; [rewrite <- Heq; exact H | exact Heq].
  - destruct (roll_not_rollable d k gen Hd) as [e He]. congruence.
Qed.




(** The overflowing total of the witness above is refused with the
    finiteness error, before the count is looked at. *)
Example roll_overflow_total :
  roll (mkDie [LInt 1; LInt 2] [f_one; f_one]
              [(LInt 1, round_Z (10 ^ 308)); (LInt 2, round_Z (10 ^ 308))]) 0 zero_rng
  = Raise (ValueError "Total of weights must be finite").
Proof. vm_compute. reflexivity. Qed.

(** C9 (Game.play), counterexample: [play(0)] and [play(-3)] on a game
    with one die (the empty-faced die [Die(np.array([]))] builds) succeed
    and store an empty table. *)
Lemma play_nonpositive_counterexample :
  Die_init (PNdarray []) = Ok (die_fields []) /\
  play (Game_init [die_fields []]) 0 zero_rng
    = Ok (mkGame [die_fields []] (Some (mkFrame ["Die 0"] [] "Roll" [])), zero_rng) /\
  play (Game_init [die_fields []]) (-3) zero_rng
    = Ok (mkGame [die_fields []] (Some (mkFrame ["Die 0"] [] "Roll" [])), zero_rng).
Proof. repeat split; reflexivity. Qed.

(** C9 (Game.play), amended: [play(trials)] with [trials < 1] raises
    nothing; it replaces [results] by a table with no rows, an empty
    index named ['Roll'] and the columns ["Die 0"], ..., one per die. *)
Theorem play_nonpositive :
  forall (g : Game) (n : Z) (gen : rng),
    (n < 1)%Z ->
    play g n gen
    = Ok (mkGame (dice g)
            (Some (mkFrame (map die_column (seq 0 (length (dice g)))) [] "Roll" [])),
          gen).
Proof.
  intros g n gen Hn. unfold play.
  replace (Z.to_nat n) with 0%nat by lia. reflexivity.
Qed.

Lemma play_nonpositive_witness :
  (-3 < 1)%Z /\
  play (Game_init [die_fields []; die_fields [LInt 1]]) (-3) zero_rng
    = Ok (mkGame [die_fields []; die_fields [LInt 1]]
            (Some (mkFrame ["Die 0"; "Die 1"] [] "Roll" [])), zero_rng).
Proof.
  split; [lia |].
  apply (play_nonpositive (Game_init [die_fields []; die_fields [LInt 1]]) (-3) zero_rng).
  lia.
Defined.

Lemma bisect_loop_le : forall f a x lo hi,
  (lo <= hi)%nat -> (bisect_loop f a x lo hi <= hi)%nat.
Proof.
  induction f as [| f IH]; intros a x lo hi Hle; cbn [bisect_loop]; [exact Hle |].
  destruct (Nat.ltb lo hi) eqn:Hlt; [| exact Hle].
  apply Nat.ltb_lt in Hlt.
  assert (Hmid : (lo <= Nat.div (lo + hi) 2 < hi)%nat).
  { pose proof (Nat.div_mod (lo + hi) 2 ltac:(lia)).
    pose proof (Nat.mod_upper_bound (lo + hi) 2 ltac:(lia)). lia. }
  destruct (fltb x (nth (Nat.div (lo + hi) 2) a f_zero)).
  - eapply Nat.le_trans; [apply IH; lia | lia].
  - apply IH; lia.
Qed.




Lemma roll_each_width : forall ds gen row gen',
  roll_each ds gen = Ok (row, gen') -> length row = length ds.
Proof.
  induction ds as [| d ds IH]; intros gen row gen' H; simpl in H.
  - injection H as <- _. reflexivity.
  - destruct (roll d 1 gen) as [[outs g1] | e]; simpl in H; [| discriminate].
    destruct (py_index outs 0) as [o | e]; simpl in H; [| discriminate].
    destruct (roll_each ds g1) as [[rest g2] | e] eqn:Hr; simpl in H; [| discriminate].
    injection H as <- _. simpl. f_equal. eapply IH; exact Hr.
Qed.


(** Every table [play] stores has one row per trial and one cell per die. *)
Lemma play_rolls_shape : forall n ds gen res gen',
  play_rolls n ds gen = Ok (res, gen') ->
  length res = n /\ Forall (fun r => length r = length ds) res.
Proof.
  induction n as [| n IH]; intros ds gen res gen' H; simpl in H.
  - injection H as <- _. split; [reflexivity | constructor].
  - destruct (roll_each ds gen) as [[row g1] | e] eqn:Hr; simpl in H; [| discriminate].
    destruct (play_rolls n ds g1) as [[rest g2] | e] eqn:Hp; simpl in H; [| discriminate].
    injection H as <- _. destruct (IH _ _ _ _ Hp) as [Hl Hf].
    split; [simpl; lia | constructor; [eapply roll_each_width; exact Hr | exact Hf]].
Qed.




Lemma filter_all_true : forall {A} (f : A -> bool) (l : list A),
  (forall x, In x l -> f x = true) -> filter f l = l.
Proof.
  intros A f l. induction l as [| x l IH]; intros H; simpl; [reflexivity |].
  rewrite (H x (or_introl eq_refl)), IH; [reflexivity |].
  intros y Hy. apply H. right. exact Hy.
Qed.

Lemma nunique_single : forall x,
  nunique [x] = if is_nan x then 0%nat else 1%nat.
Proof. intros [z | s |]; reflexivity. Qed.

(** C6 (Analyzer.jackpot), failing input: one die whose only face is
    [nan]; after [play(1)] the table has one trial, in which every die
    shows the same face, but [nunique] drops [nan], so [jackpot()] is 0. *)
Lemma jackpot_single_die_counterexample :
  exists g' gen',
    play (Game_init [die_fields [LNaN]]) 1 zero_rng = Ok (g', gen') /\
    results g' = Some (mkFrame ["Die 0"] [1%Z] "Roll" [[LNaN]]) /\
    (a <- Analyzer_init (AGame g') ;; jackpot a) = Ok 0%nat.
Proof.
  do 2 eexists. split; [vm_compute; reflexivity |].
  split; vm_compute; reflexivity.
Qed.

(** C6 (Analyzer.jackpot): for a game with exactly one die, after a
    successful [play(t)] an Analyzer builds and [jackpot()] counts only the
    trials whose outcome is not [nan], although every single-die trial has
    all its dice on the same face; it equals [t] when no drawn outcome is
    [nan]. *)
Theorem jackpot_single_die :
  forall (g : Game) (n : Z) (gen : rng) (g' : Game) (gen' : rng),
    length (dice g) = 1%nat ->
    play g n gen = Ok (g', gen') ->
    exists t a,
      results g' = Some t /\
      length (rows t) = Z.to_nat n /\
      Analyzer_init (AGame g') = Ok a /\
      jackpot a = Ok (length (filter (fun r => forallb (fun x => negb (is_nan x)) r) (rows t))) /\
      (Forall (Forall (fun x => is_nan x = false)) (rows t) ->
       jackpot a = Ok (Z.to_nat n)).
Proof.
  intros g n gen g' gen' H1 Hp. unfold play in Hp.
  destruct (play_rolls (Z.to_nat n) (dice g) gen) as [[res g1] | e] eqn:Hr;
    simpl in Hp; [| discriminate].
  injection Hp as <- _.
  destruct (play_rolls_shape _ _ _ _ _ Hr) as [Hl Hf]. rewrite H1 in Hf.
  set (t := mkFrame _ _ _ res).
  exists t, (mkAnalyzer (mkGame (dice g) (Some t))).
  assert (Hj : filter (fun r => Nat.eqb (nunique r) 1) res
               = filter (fun r => forallb (fun x => negb (is_nan x)) r) res).
  { apply filter_ext_in. intros r Hin.
    rewrite Forall_forall in Hf. specialize (Hf r Hin).
    destruct r as [| x [| y r]]; try discriminate.
    rewrite nunique_single. simpl. destruct (is_nan x); reflexivity. }
  split; [reflexivity |]. split; [exact Hl |]. split; [reflexivity |].
  unfold jackpot, game_results. simpl. rewrite Hj.
  split; [reflexivity |].
  intros Hnan. rewrite filter_all_true; [rewrite Hl; reflexivity |].
  intros r Hin. rewrite Forall_forall in Hnan. specialize (Hnan r Hin).
  apply forallb_forall. intros x Hx. rewrite Forall_forall in Hnan.
  rewrite (Hnan x Hx). reflexivity.
Qed.

Lemma jackpot_single_die_witness :
  length (dice (Game_init [die_fields [LInt 1; LInt 2]])) = 1%nat /\
  exists g' gen' t a,
    play (Game_init [die_fields [LInt 1; LInt 2]]) 3 zero_rng = Ok (g', gen') /\
    results g' = Some t /\ Analyzer_init (AGame g') = Ok a /\
    jackpot a = Ok (length (filter (fun r => forallb (fun x => negb (is_nan x)) r) (rows t))).
Proof.
  split; [reflexivity |].
  destruct (play (Game_init [die_fields [LInt 1; LInt 2]]) 3 zero_rng)
    as [[g' gen'] | e] eqn:Hp; [| vm_compute in Hp; discriminate].
  destruct (jackpot_single_die (Game_init [die_fields [LInt 1; LInt 2]]) _ _ _ _ eq_refl Hp)
    as [t [a [Ht [_ [Ha [Hj _]]]]]].
  exists g', gen', t, a. repeat split; assumption.
Defined.













Lemma py_eq_eq : forall a b, py_eq a b = true -> a = b.
Proof.
  intros [x | x |] [y | y |] H; simpl in H; try discriminate.
  - apply Z.eqb_eq in H. subst. reflexivity.
  - apply String.eqb_eq in H. subst. reflexivity.
Qed.

Lemma map_fst_combine : forall {A B} (xs : list A) (ys : list B),
  length xs = length ys -> map fst (combine xs ys) = xs.
Proof.
  intros A B xs. induction xs as [| x xs IH]; intros [| y ys] H; simpl in *;
    try discriminate; [reflexivity |].
  rewrite IH; [reflexivity | lia].
Qed.

Lemma df_set_keys : forall l face q, map fst (df_set l face q) = map fst l.
Proof.
  intros l face q. unfold df_set. rewrite map_map. apply map_ext.
  intros [k v]. simpl. destruct (py_eq k face); reflexivity.
Qed.

Lemma df_set_in : forall l face q,
  existsb (py_eq face) (map fst l) = true -> In (face, q) (df_set l face q).
Proof.
  induction l as [| [k v] l IH]; intros face q H; simpl in H; [discriminate |].
  simpl. destruct (py_eq face k) eqn:E.
  - pose proof E as E0. apply py_eq_eq in E0. subst k. left. simpl. rewrite E. reflexivity.
  - right. apply IH. exact H.
Qed.





(** A successful [change_weight] writes one float into the DataFrame. *)
Lemma change_weight_ok : forall d face w d',
  change_weight d face w = Ok d' ->
  exists q, float64_setitem w = Ok q /\
            d' = mkDie (faces d) (weights d) (df_set (df d) face q).
Proof.
  intros d face w d' H. unfold change_weight in H.
  destruct (negb (ndarray_contains (faces d) face)); [discriminate |].
  destruct (negb (is_int_or_float w)); [discriminate |].
  destruct (float64_setitem w) as [q | e]; cbn [bind] in H; [| discriminate].
  injection H as <-. eauto.
Qed.

Lemma change_weights_app : forall d l1 l2,
  change_weights d (l1 ++ l2) = (d1 <- change_weights d l1 ;; change_weights d1 l2).
Proof.
  intros d l1. revert d. induction l1 as [| [f w] l1 IH]; intros d l2; simpl; [reflexivity |].
  destruct (change_weight d f w) as [d1 | e]; simpl; [apply IH | reflexivity].
Qed.

(** [change_weight] keeps the faces, the [weights] array and the
    DataFrame's index. *)
Lemma change_weights_keep : forall calls d d',
  change_weights d calls = Ok d' ->
  faces d' = faces d /\ weights d' = weights d /\ map fst (df d') = map fst (df d).
Proof.
  induction calls as [| [f w] calls IH]; intros d d' H; simpl in H.
  - injection H as <-. auto.
  - destruct (change_weight d f w) as [d1 | e] eqn:Hc; simpl in H; [| discriminate].
    destruct (change_weight_ok _ _ _ _ Hc) as [q [_ ->]].
    destruct (IH _ _ H) as [Hf [Hw Hk]]. simpl in *.
    rewrite Hf, Hw, Hk, df_set_keys. auto.
Qed.

Lemma Forall2_map_l_inv : forall {A B C} (R : B -> C -> Prop) (g : A -> B) l l',
  Forall2 R (map g l) l' -> Forall2 (fun a c => R (g a) c) l l'.
Proof.
  intros A B C R g l. induction l as [| a l IH]; intros l' H; inversion H; subst;
    constructor; auto.
Qed.

Lemma Forall2_map_r : forall {A B C} (R : A -> C -> Prop) (g : B -> C) l l',
  Forall2 (fun a b => R a (g b)) l l' -> Forall2 R l (map g l').
Proof. intros A B C R g l l' H. induction H; simpl; constructor; assumption. Qed.

Lemma Forall2_refl_of : forall {A} (R : A -> A -> Prop) l,
  (forall x, R x x) -> Forall2 R l l.
Proof. intros A R l H. induction l; constructor; auto. Qed.

Lemma Forall2_combine_repeat : forall {A B C} (P : A * B -> C -> Prop) xs c l',
  Forall2 P (combine xs (repeat c (length xs))) l' -> Forall2 (fun x y => P (x, c) y) xs l'.
Proof.
  intros A B C P xs c. induction xs as [| x xs IH]; intros l' H; simpl in H;
    inversion H; subst; constructor; auto.
Qed.

Lemma Forall2_repeat_iff : forall {A B} (P : A -> B -> Prop) (Q : A -> Prop) xs vs c,
  (forall x v, P x v -> (v = c <-> Q x)) ->
  Forall2 P xs vs -> (vs = repeat c (length xs) <-> Forall Q xs).
Proof.
  intros A B P Q xs vs c HPQ F. induction F as [| x v xs vs Hxv F IH]; simpl.
  - split; intros _; [constructor | reflexivity].
  - rewrite Forall_cons_iff, <- IH, <- (HPQ x v Hxv). split.
    + intros E. injection E as -> ->. auto.
    + intros [-> ->]. reflexivity.
Qed.

(** Each DataFrame row ends with the float stored by the last call that
    named its label, or keeps its weight when no call did. *)
Lemma change_weights_df : forall calls d d',
  change_weights d calls = Ok d' ->
  Forall2 (fun kv kv' => fst kv' = fst kv /\
             match last_set (fst kv) calls with
             | None => snd kv' = snd kv
             | Some w => float64_setitem w = Ok (snd kv')
             end) (df d) (df d').
Proof.
  induction calls as [| [f w] calls IH]; intros d d' H; simpl in H.
  - injection H as <-. apply Forall2_refl_of. intros kv. split; reflexivity.
  - destruct (change_weight d f w) as [d1 | e] eqn:Hc; simpl in H; [| discriminate].
    destruct (change_weight_ok _ _ _ _ Hc) as [q [Hq ->]].
    specialize (IH _ _ H). simpl in IH. unfold df_set in IH.
    apply Forall2_map_l_inv in IH.
    eapply Forall2_impl; [| exact IH]. intros [k v] [k' v']. simpl.
    destruct (py_eq k f) eqn:Ek; simpl; intros [Hk' Hl]; split; try exact Hk';
      destruct (last_set k calls) as [w' |]; try exact Hl.
    rewrite Hl. exact Hq.
Qed.

(** The two checks of [change_weight] passed on every successful call. *)
Lemma change_weight_checks : forall d face w d',
  change_weight d face w = Ok d' ->
  ndarray_contains (faces d) face = true /\ is_int_or_float w = true.
Proof.
  intros d face w d' H. unfold change_weight in H.
  destruct (ndarray_contains (faces d) face); [| discriminate].
  destruct (is_int_or_float w); [split; reflexivity | discriminate].
Qed.

Lemma change_weight_eq : forall d face w,
  ndarray_contains (faces d) face = true -> is_int_or_float w = true ->
  change_weight d face w =
    (q <- float64_setitem w ;; Ok (mkDie (faces d) (weights d) (df_set (df d) face q))).
Proof. intros d face w H1 H2. unfold change_weight. rewrite H1, H2. reflexivity. Qed.

(** C10 (change_weight, roll), counterexample: setting a face's weight to
    1.0 succeeds and leaves the [weights] array equal to the DataFrame
    weights [roll] samples with, so it still describes the distribution. *)
Lemma weights_attr_counterexample :
  exists d',
    change_weight (die_fields [LInt 1; LInt 2; LInt 3]) (LInt 1) (PFloat f_one) = Ok d' /\
    map snd (df d') = weights d'.
Proof. eexists. split; vm_compute; reflexivity. Qed.

(** C10 (change_weight, roll), amended: through any sequence of
    successful [change_weight] calls on a die built with faces [xs], the
    [weights] array keeps its construction-time 1.0 values, while the
    DataFrame row of each face holds the float stored by the last call
    that named that face (1.0 when none did); [roll] reads only the
    DataFrame.  So the [weights] array equals the DataFrame weights
    exactly when every face that was set was last set to a value stored as
    1.0, and misreports the weight of any face last set to another value. *)
Theorem weights_attr_stale :
  forall (xs : list label) (calls : list (label * pyobj)) (d' : Die),
    change_weights (die_fields xs) calls = Ok d' ->
    faces d' = xs /\
    weights d' = repeat f_one (length xs) /\
    map fst (df d') = xs /\
    Forall2 (fun x v => match last_set x calls with
                        | None => v = f_one
                        | Some w => float64_setitem w = Ok v
                        end) xs (map snd (df d')) /\
    (forall ws n gen, roll (mkDie (faces d') ws (df d')) n gen = roll d' n gen) /\
    (map snd (df d') = weights d' <->
     Forall (fun x => match last_set x calls with
                      | None => True
                      | Some w => float64_setitem w = Ok f_one
                      end) xs).
Proof.
  intros xs calls d' H.
  destruct (change_weights_keep _ _ _ H) as [Hf [Hw Hk]]. simpl in Hf, Hw, Hk.
  rewrite map_fst_combine in Hk by (rewrite repeat_length; reflexivity).
  pose proof (Forall2_combine_repeat _ xs f_one _ (change_weights_df _ _ _ H)) as F.
  assert (F2 : Forall2 (fun x v => match last_set x calls with
                                   | None => v = f_one
                                   | Some w => float64_setitem w = Ok v
                                   end) xs (map snd (df d'))).
  { apply Forall2_map_r. eapply Forall2_impl; [| exact F].
    intros x kv [_ Hx]. exact Hx. }
  split; [exact Hf |]. split; [exact Hw |]. split; [exact Hk |]. split; [exact F2 |].
  split; [reflexivity |].
  rewrite Hw. refine (Forall2_repeat_iff _ _ xs _ f_one _ F2).
  intros x v. destruct (last_set x calls) as [w |]; intros Hxv.
  - split; [intros ->; exact Hxv | intros Hw1; congruence].
  - split; [intros _; exact I | intros _; exact Hxv].
Qed.

Lemma weights_attr_stale_witness :
  exists d',
    change_weights (die_fields [LInt 1; LInt 2])
                   [(LInt 2, PInt 5); (LInt 1, PFloat (f_ratio 1 2))] = Ok d' /\
    weights d' = [f_one; f_one] /\
    Forall2 (fun x v => match last_set x [(LInt 2, PInt 5); (LInt 1, PFloat (f_ratio 1 2))] with
                        | None => v = f_one
                        | Some w => float64_setitem w = Ok v
                        end) [LInt 1; LInt 2] (map snd (df d')).
Proof.
  destruct (change_weights (die_fields [LInt 1; LInt 2])
              [(LInt 2, PInt 5); (LInt 1, PFloat (f_ratio 1 2))]) as [d' | e] eqn:H;
    [| vm_compute in H; discriminate].
  destruct (weights_attr_stale [LInt 1; LInt 2]
              [(LInt 2, PInt 5); (LInt 1, PFloat (f_ratio 1 2))] d' H)
    as [_ [Hw [_ [F _]]]].
  exists d'. split; [reflexivity |]. split; [exact Hw | exact F].
Defined.

(** ** Further properties of the code *)

(** *** Sampling *)

(** Every element [draw_k] returns is [population[i]] for an index [i]
    that [bisect_right] produced from some draw of the stream. *)
Lemma draw_k_pick : forall (P : nat -> Prop) k pop cum total hi g xs g',
  (forall m, P (bisect_right cum (fmul (rand g m) total) 0 hi)) ->
  draw_k k pop cum total hi g = Ok (xs, g') ->
  length xs = k /\ Forall (fun x => exists i, P i /\ nth_error pop i = Some x) xs.
Proof.
  intros P k. induction k as [| k IH]; intros pop cum total hi g xs g' HP H; simpl in H.
  - injection H as <- _. split; [reflexivity | constructor].
  - unfold py_index in H.
    destruct (nth_error pop (bisect_right cum (fmul (rand g (pos g)) total) 0 hi))
      as [x |] eqn:Hx; simpl in H; [| discriminate].
    destruct (draw_k k pop cum total hi (mkRng (rand g) (S (pos g)))) as [[rest g2] | e] eqn:Hd;
      simpl in H; [| discriminate].
    injection H as <- _.
    destruct (IH pop cum total hi (mkRng (rand g) (S (pos g))) rest g2 HP Hd) as [Hl Hf].
    split; [simpl; lia |]. constructor; [| exact Hf].
    exists (bisect_right cum (fmul (rand g (pos g)) total) 0 hi). split; [apply HP | exact Hx].
Qed.

Lemma draw_k_ok : forall k pop cum total hi g,
  (hi < length pop)%nat -> exists xs g', draw_k k pop cum total hi g = Ok (xs, g').
Proof.
  induction k as [| k IH]; intros pop cum total hi g Hhi; simpl; [eauto |].
  unfold py_index.
  destruct (nth_error pop (bisect_right cum (fmul (rand g (pos g)) total) 0 hi))
    as [x |] eqn:Hx.
  - simpl. destruct (IH pop cum total hi (mkRng (rand g) (S (pos g))) Hhi) as [xs [g2 Hd]].
    rewrite Hd. simpl. eauto.
  - exfalso. apply nth_error_None in Hx. unfold bisect_right in Hx.
    pose proof (bisect_loop_le (hi - 0) cum (fmul (rand g (pos g)) total) 0 hi ltac:(lia)).
    lia.
Qed.

Lemma roll_in_faces : forall d k gen xs g',
  roll d k gen = Ok (xs, g') ->
  length xs = Z.to_nat k /\ Forall (fun x => In x (faces d)) xs.
Proof.
  intros d k gen xs g' H.
  destruct (roll_ok_draw _ _ _ _ _ H) as [_ [total [Hd _]]].
  destruct (draw_k_pick (fun _ => True) _ _ _ _ _ _ _ _ (fun _ => I) Hd) as [Hl Hf].
  split; [exact Hl |].
  eapply Forall_impl; [| exact Hf]. intros x [i [_ Hi]]. eapply nth_error_In. exact Hi.
Qed.

(** [Die.roll(k)] on a die whose weights have a positive, finite float
    total returns [max k 0] faces of that die. *)
Theorem roll_draws_faces :
  forall (d : Die) (k : Z) (gen : rng),
    die_rollable d = true ->
    exists xs gen',
      roll d k gen = Ok (xs, gen') /\
      length xs = Z.to_nat k /\ Forall (fun x => In x (faces d)) xs.
Proof.
  intros d k gen H. destruct (roll_rollable d H) as [Hn [total Heq]].
  destruct (draw_k_ok (Z.to_nat k) (faces d) (accumulate (map snd (df d))) total
              (length (faces d) - 1) gen ltac:(lia)) as [xs [g' Hd]].
  assert (Hr : roll d k gen = Ok (xs, g')) by (rewrite Heq; exact Hd).
  exists xs, g'. split; [exact Hr |]. exact (roll_in_faces _ _ _ _ _ Hr).
Qed.

Lemma roll_draws_faces_witness :
  die_rollable (die_fields [LInt 1; LInt 2; LInt 3]) = true /\
  exists xs gen',
    roll (die_fields [LInt 1; LInt 2; LInt 3]) 4 zero_rng = Ok (xs, gen') /\
    length xs = 4%nat.
Proof.
  split; [vm_compute; reflexivity |].
  destruct (roll_draws_faces (die_fields [LInt 1; LInt 2; LInt 3]) 4 zero_rng
              ltac:(vm_compute; reflexivity))
    as [xs [g' [H1 [H2 _]]]].
  exists xs, g'. split; [exact H1 | exact H2].
Defined.

(** *** Games *)

Lemma roll_each_faces : forall ds gen row gen',
  roll_each ds gen = Ok (row, gen') -> Forall2 (fun x d => In x (faces d)) row ds.
Proof.
  induction ds as [| d ds IH]; intros gen row gen' H; simpl in H.
  - injection H as <- _. constructor.
  - destruct (roll d 1 gen) as [[outs g1] | e] eqn:Hr; simpl in H; [| discriminate].
    destruct (py_index outs 0) as [o | e] eqn:Hi; simpl in H; [| discriminate].
    destruct (roll_each ds g1) as [[rest g2] | e] eqn:He; simpl in H; [| discriminate].
    injection H as <- _. constructor; [| eapply IH; exact He].
    destruct (roll_in_faces _ _ _ _ _ Hr) as [_ Hf]. rewrite Forall_forall in Hf.
    apply Hf. unfold py_index in Hi.
    destruct (nth_error outs 0) eqn:Hn; [| discriminate]. injection Hi as ->.
    eapply nth_error_In; exact Hn.
Qed.

Lemma play_rolls_faces : forall n ds gen res gen',
  play_rolls n ds gen = Ok (res, gen') ->
  Forall (fun r => Forall2 (fun x d => In x (faces d)) r ds) res.
Proof.
  induction n as [| n IH]; intros ds gen res gen' H; simpl in H.
  - injection H as <- _. constructor.
  - destruct (roll_each ds gen) as [[row g1] | e] eqn:Hr; simpl in H; [| discriminate].
    destruct (play_rolls n ds g1) as [[rest g2] | e] eqn:Hp; simpl in H; [| discriminate].
    injection H as <- _.
    constructor; [eapply roll_each_faces; exact Hr | eapply IH; exact Hp].
Qed.

(** Every cell of the table [Game.play] stores is a face of the die of its
    column: row [r], column ["Die j"] holds a face of [dice[j]]. *)
Theorem play_cells_are_faces :
  forall (g : Game) (n : Z) (gen : rng) (g' : Game) (gen' : rng) (t : DataFrame),
    play g n gen = Ok (g', gen') ->
    results g' = Some t ->
    dice g' = dice g /\
    Forall (fun r => Forall2 (fun x d => In x (faces d)) r (dice g)) (rows t).
Proof.
  intros g n gen g' gen' t H Ht. unfold play in H.
  destruct (play_rolls (Z.to_nat n) (dice g) gen) as [[res g1] | e] eqn:Hp;
    simpl in H; [| discriminate].
  injection H as <- _. simpl in Ht. injection Ht as <-. simpl.
  split; [reflexivity | eapply play_rolls_faces; exact Hp].
Qed.

Lemma play_cells_are_faces_witness :
  exists g' gen' t,
    play (mkGame [die_fields [LInt 1; LInt 2]; die_fields [LInt 5; LInt 6]] None) 3 zero_rng = Ok (g', gen') /\ results g' = Some t /\
    Forall (fun r => Forall2 (fun x d => In x (faces d)) r (dice (mkGame [die_fields [LInt 1; LInt 2]; die_fields [LInt 5; LInt 6]] None))) (rows t).
Proof.
  destruct (play (mkGame [die_fields [LInt 1; LInt 2]; die_fields [LInt 5; LInt 6]] None) 3 zero_rng) as [[g' gen'] | e] eqn:Hp;
    [| vm_compute in Hp; discriminate].
  destruct (results g') as [t |] eqn:Ht;
    [| unfold play in Hp; vm_compute in Hp; injection Hp as <- _; discriminate].
  exists g', gen', t. split; [reflexivity |]. split; [exact Ht |].
  exact (proj2 (play_cells_are_faces (mkGame [die_fields [LInt 1; LInt 2]; die_fields [LInt 5; LInt 6]] None) 3 zero_rng g' gen' t Hp Ht)).
Defined.

(** *** Analyzer.face_counts_per_roll *)

Lemma py_eq_refl : forall x, is_nan x = false -> py_eq x x = true.
Proof.
  intros [z | s |] H; simpl in *; [apply Z.eqb_refl | apply String.eqb_refl | discriminate].
Qed.

Lemma py_eq_nan_r : forall x, py_eq x LNaN = false.
Proof. intros [z | s |]; reflexivity. Qed.

Lemma py_eq_nan_l : forall x, py_eq LNaN x = false.
Proof. intros [z | s |]; reflexivity. Qed.

Lemma existsb_py_eq_In : forall x l,
  is_nan x = false -> existsb (py_eq x) l = true <-> In x l.
Proof.
  intros x l Hx. rewrite existsb_exists. split.
  - intros [y [Hy E]]. apply py_eq_eq in E. subst. exact Hy.
  - intros Hin. exists x. split; [exact Hin | apply py_eq_refl; exact Hx].
Qed.

Lemma same_key_iff : forall a b, same_key a b = true <-> a = b.
Proof.
  intros a b. unfold same_key. rewrite orb_true_iff. split.
  - intros [H | H]; [apply py_eq_eq; exact H |].
    destruct a, b; try discriminate; reflexivity.
  - intros ->. destruct (is_nan b) eqn:Hb.
    + right. reflexivity.
    + left. apply py_eq_refl. exact Hb.
Qed.

Lemma existsb_same_key_In : forall x l, existsb (same_key x) l = true <-> In x l.
Proof.
  intros x l. rewrite existsb_exists. split.
  - intros [y [Hy E]]. apply same_key_iff in E. subst. exact Hy.
  - intros Hin. exists x. split; [exact Hin | apply same_key_iff; reflexivity].
Qed.

Lemma unique_aux_In : forall xs seen x,
  In x (unique_aux seen xs) <-> In x xs /\ ~ In x seen.
Proof.
  induction xs as [| a xs IH]; intros seen x; simpl; [tauto |].
  destruct (existsb (same_key a) seen) eqn:E.
  - apply existsb_same_key_In in E.
    rewrite (IH seen x). split; [tauto |].
    intros [[<- | H] Hn]; [contradiction | tauto].
  - assert (Hna : ~ In a seen) by (rewrite <- existsb_same_key_In; congruence).
    simpl. rewrite (IH (a :: seen) x). simpl.
    destruct (label_eq_dec a x) as [<- | Hne]; [tauto |].
    split; [intros [H | [H1 H2]]; [congruence | tauto] |].
    intros [[H | H] Hn]; [congruence |]. right. split; [exact H |]. intros [H' | H']; congruence.
Qed.

Lemma unique_aux_NoDup : forall xs seen, NoDup (unique_aux seen xs).
Proof.
  induction xs as [| a xs IH]; intros seen; simpl; [constructor |].
  destruct (existsb (same_key a) seen); [apply IH |].
  constructor; [| apply IH].
  rewrite (unique_aux_In xs (a :: seen) a). simpl. tauto.
Qed.

Lemma list_sum_map_add : forall {A} (g h : A -> nat) l,
  list_sum (map (fun f => g f + h f)%nat l) = (list_sum (map g l) + list_sum (map h l))%nat.
Proof. intros A g h l. induction l as [| a l IH]; simpl; [reflexivity | lia]. Qed.

Lemma list_sum_map_zero : forall {A} (l : list A), list_sum (map (fun _ => 0%nat) l) = 0%nat.
Proof. intros A l. induction l as [| a l IH]; simpl; [reflexivity | exact IH]. Qed.

Lemma indicator_sum_absent : forall fs x,
  ~ In x fs -> list_sum (map (fun f => if py_eq f x then 1%nat else 0%nat) fs) = 0%nat.
Proof.
  induction fs as [| f fs IH]; intros x Hx; simpl; [reflexivity |].
  destruct (py_eq f x) eqn:E.
  - apply py_eq_eq in E. subst. exfalso. apply Hx. left. reflexivity.
  - apply IH. intros H. apply Hx. right. exact H.
Qed.

Lemma indicator_sum_present : forall fs x,
  NoDup fs -> In x fs -> is_nan x = false ->
  list_sum (map (fun f => if py_eq f x then 1%nat else 0%nat) fs) = 1%nat.
Proof.
  induction fs as [| f fs IH]; intros x Hnd Hin Hx; [destruct Hin |].
  apply NoDup_cons_iff in Hnd as [Hf Hnd]. simpl.
  destruct Hin as [<- | Hin].
  - rewrite (py_eq_refl f Hx), (indicator_sum_absent fs f Hf). reflexivity.
  - destruct (py_eq f x) eqn:E.
    + apply py_eq_eq in E. subst. contradiction.
    + apply IH; assumption.
Qed.

(** Summing the counts of a row over the distinct faces counts every
    non-NaN cell once. *)
Lemma row_face_counts_sum : forall fs row,
  NoDup fs ->
  (forall x, In x row -> is_nan x = false -> In x fs) ->
  list_sum (row_face_counts fs row) = length (filter (fun x => negb (is_nan x)) row).
Proof.
  intros fs row Hnd. unfold row_face_counts.
  induction row as [| x row IH]; intros Hcov.
  - simpl. apply list_sum_map_zero.
  - rewrite (map_ext (fun f => length (filter (py_eq f) (x :: row)))
                     (fun f => (if py_eq f x then 1%nat else 0%nat) + length (filter (py_eq f) row))%nat)
      by (intros f; simpl; destruct (py_eq f x); reflexivity).
    rewrite list_sum_map_add, IH by (intros y Hy; apply Hcov; right; exact Hy).
    simpl. destruct (is_nan x) eqn:Hx.
    + destruct x; try discriminate.
      rewrite (map_ext _ (fun _ => 0%nat)) by (intros f; rewrite py_eq_nan_r; reflexivity).
      rewrite list_sum_map_zero. reflexivity.
    + rewrite (indicator_sum_present fs x Hnd (Hcov x (or_introl eq_refl) Hx) Hx). reflexivity.
Qed.

Lemma Forall_Forall2_map : forall {A B} (P : B -> A -> Prop) (f : A -> B) l,
  Forall (fun r => P (f r) r) l -> Forall2 P (map f l) l.
Proof.
  intros A B P f l H. induction H as [| x l Hx Hl IH]; simpl; constructor; assumption.
Qed.

(** [Analyzer.face_counts_per_roll()]: one row per trial, under the index
    of the results; the columns are the distinct outcomes of the whole
    table, each once (NaN too, once, when a cell is NaN), and the count
    under a NaN column is 0 in every row. *)
Theorem face_counts_columns :
  forall (a : Analyzer) (cf : CountFrame),
    face_counts_per_roll a = Ok cf ->
    exists t, results (game a) = Some t /\
      c_index cf = index t /\ c_index_name cf = "Roll"%string /\
      length (c_rows cf) = length (rows t) /\
      NoDup (c_columns cf) /\
      (forall x, In x (c_columns cf) <-> In x (concat (rows t))) /\
      Forall (fun cr => Forall2 (fun f c => is_nan f = true -> c = 0%nat) (c_columns cf) cr)
             (c_rows cf).
Proof.
  intros a cf H. unfold face_counts_per_roll, game_results in H.
  destruct (results (game a)) as [t |] eqn:Ht; simpl in H; [| discriminate].
  injection H as <-. exists t. simpl.
  split; [reflexivity |]. split; [reflexivity |]. split; [reflexivity |].
  split; [apply length_map |].
  split; [apply unique_aux_NoDup |].
  split; [intros x; unfold stack; rewrite unique_aux_In; simpl; tauto |].
  apply Forall_forall. intros cr Hcr. apply in_map_iff in Hcr as [r [<- _]].
  unfold row_face_counts. set (fs := unique_aux [] (stack t)).
  clearbody fs. induction fs as [| f fs IH]; simpl; constructor; [| exact IH].
  intros Hf. destruct f; try discriminate. clear IH.
  induction r as [| y r IHr]; [reflexivity |]. destruct y; exact IHr.
Qed.

Lemma face_counts_columns_witness :
  exists cf,
    face_counts_per_roll
      (mkAnalyzer (mkGame [] (Some (mkFrame ["Die 0"; "Die 1"]%string [1%Z; 2%Z] "Roll"
                                     [[LInt 3; LInt 1]; [LInt 1; LNaN]])))) = Ok cf /\
    c_columns cf = [LInt 3; LInt 1; LNaN] /\
    exists t, results (game (mkAnalyzer (mkGame [] (Some (mkFrame ["Die 0"; "Die 1"]%string
                [1%Z; 2%Z] "Roll" [[LInt 3; LInt 1]; [LInt 1; LNaN]]))))) = Some t /\
      NoDup (c_columns cf).
Proof.
  eexists. split; [reflexivity |]. split; [reflexivity |].
  destruct (face_counts_columns
              (mkAnalyzer (mkGame [] (Some (mkFrame ["Die 0"; "Die 1"]%string [1%Z; 2%Z] "Roll"
                                             [[LInt 3; LInt 1]; [LInt 1; LNaN]]))))
              _ eq_refl) as [t [Ht [_ [_ [_ [Hnd _]]]]]].
  exists t. split; [exact Ht | exact Hnd].
Defined.

(** Each row of [face_counts_per_roll()] has one count per column, and its
    counts add up to the number of non-NaN cells of that trial: every die's
    outcome is counted exactly once. *)
Theorem face_counts_row_sums :
  forall (a : Analyzer) (t : DataFrame),
    results (game a) = Some t ->
    exists cf, face_counts_per_roll a = Ok cf /\
      Forall2 (fun cr r => length cr = length (c_columns cf) /\
                           list_sum cr = length (filter (fun x => negb (is_nan x)) r))
              (c_rows cf) (rows t).
Proof.
  intros a t Ht. unfold face_counts_per_roll, game_results. rewrite Ht. simpl.
  eexists. split; [reflexivity |]. simpl.
  apply Forall_Forall2_map. apply Forall_forall. intros r Hr. split.
  - apply length_map.
  - apply row_face_counts_sum; [apply unique_aux_NoDup |].
    intros x Hx _. apply unique_aux_In.
    split; [| intros []]. unfold stack. apply in_concat. exists r. split; assumption.
Qed.

Lemma face_counts_row_sums_witness :
  results (game (mkAnalyzer (mkGame [] (Some (mkFrame ["Die 0"; "Die 1"; "Die 2"]%string
             [1%Z; 2%Z] "Roll" [[LInt 3; LInt 1; LInt 3]; [LInt 1; LNaN; LInt 2]])))))
    = Some (mkFrame ["Die 0"; "Die 1"; "Die 2"]%string
             [1%Z; 2%Z] "Roll" [[LInt 3; LInt 1; LInt 3]; [LInt 1; LNaN; LInt 2]]) /\
  exists cf,
    face_counts_per_roll (mkAnalyzer (mkGame [] (Some (mkFrame ["Die 0"; "Die 1"; "Die 2"]%string
             [1%Z; 2%Z] "Roll" [[LInt 3; LInt 1; LInt 3]; [LInt 1; LNaN; LInt 2]])))) = Ok cf /\
    Forall2 (fun cr r => length cr = length (c_columns cf) /\
                         list_sum cr = length (filter (fun x => negb (is_nan x)) r))
            (c_rows cf) [[LInt 3; LInt 1; LInt 3]; [LInt 1; LNaN; LInt 2]].
Proof.
  split; [reflexivity |].
  exact (face_counts_row_sums
           (mkAnalyzer (mkGame [] (Some (mkFrame ["Die 0"; "Die 1"; "Die 2"]%string
             [1%Z; 2%Z] "Roll" [[LInt 3; LInt 1; LInt 3]; [LInt 1; LNaN; LInt 2]]))))
           _ eq_refl).
Defined.

(** *** Analyzer.jackpot *)

Lemma distinct_In : forall r x,
  Forall (fun y => is_nan y = false) r -> In x r -> In x (distinct r).
Proof.
  induction r as [| a r IH]; intros x Hr Hx; [destruct Hx |].
  apply Forall_cons_iff in Hr as [Ha Hr]. simpl.
  destruct (existsb (py_eq a) r) eqn:E.
  - apply IH; [exact Hr |]. destruct Hx as [-> | Hx]; [| exact Hx].
    apply (existsb_py_eq_In x r Ha). exact E.
  - destruct Hx as [<- | Hx]; [left; reflexivity | right; apply IH; assumption].
Qed.

Lemma distinct_const : forall r x,
  is_nan x = false -> r <> [] -> Forall (fun y => y = x) r -> distinct r = [x].
Proof.
  induction r as [| a r IH]; intros x Hx Hne Hr; [contradiction |].
  apply Forall_cons_iff in Hr as [-> Hr]. simpl.
  destruct r as [| b r'].
  - reflexivity.
  - apply Forall_cons_iff in Hr as [Hb Hr']. subst b. simpl.
    rewrite (py_eq_refl x Hx). simpl.
    apply IH; [exact Hx | discriminate | constructor; [reflexivity | exact Hr']].
Qed.

Lemma nan_free_Forall : forall r,
  nan_free r = true -> Forall (fun y => is_nan y = false) r.
Proof.
  intros r H. apply Forall_forall. intros x Hx.
  unfold nan_free in H. rewrite forallb_forall in H. specialize (H x Hx).
  destruct (is_nan x); [discriminate | reflexivity].
Qed.

Lemma nan_free_filter : forall r,
  nan_free r = true -> filter (fun x => negb (is_nan x)) r = r.
Proof.
  intros r H. unfold nan_free in H. induction r as [| a r IH]; [reflexivity |].
  simpl in *. apply andb_prop in H as [Ha Hr]. rewrite Ha, (IH Hr). reflexivity.
Qed.

(** On a trial without NaN, [nunique(axis=1) == 1] holds exactly when all
    dice show the same face. *)
Lemma nunique_one_all_same : forall r,
  nan_free r = true -> Nat.eqb (nunique r) 1 = all_same r.
Proof.
  intros r H. unfold nunique. rewrite (nan_free_filter r H).
  pose proof (nan_free_Forall r H) as Hf.
  destruct r as [| x r']; [reflexivity |].
  apply Forall_cons_iff in Hf as [Hx Hr'].
  simpl all_same. destruct (forallb (py_eq x) r') eqn:E.
  - rewrite (distinct_const (x :: r') x Hx ltac:(discriminate)); [reflexivity |].
    constructor; [reflexivity |]. apply Forall_forall. intros y Hy.
    rewrite forallb_forall in E. symmetry. apply py_eq_eq, E, Hy.
  - apply Nat.eqb_neq. intros Hl.
    apply Bool.not_true_iff_false in E. apply E. apply forallb_forall. intros y Hy.
    assert (Hxd : In x (distinct (x :: r'))) by (apply distinct_In; [constructor; assumption | left; reflexivity]).
    assert (Hyd : In y (distinct (x :: r'))) by (apply distinct_In; [constructor; assumption | right; exact Hy]).
    destruct (distinct (x :: r')) as [| z [| z' zs]]; simpl in Hl; try discriminate.
    destruct Hxd as [<- | []]. destruct Hyd as [<- | []]. apply py_eq_refl; exact Hx.
Qed.

(** On a table without NaN, [Analyzer.jackpot()] is the number of trials in
    which every die shows the same face. *)
Theorem jackpot_counts_all_same :
  forall (a : Analyzer) (t : DataFrame),
    results (game a) = Some t ->
    Forall (fun r => nan_free r = true) (rows t) ->
    jackpot a = Ok (length (filter all_same (rows t))).
Proof.
  intros a t Ht Hn. unfold jackpot, game_results. rewrite Ht. simpl.
  do 2 f_equal. apply filter_ext_in. intros r Hr.
  apply nunique_one_all_same. rewrite Forall_forall in Hn. exact (Hn r Hr).
Qed.

Lemma jackpot_counts_all_same_witness :
  jackpot (mkAnalyzer (mkGame [] (Some (mkFrame ["Die 0"; "Die 1"]%string [1%Z; 2%Z; 3%Z] "Roll"
             [[LInt 4; LInt 4]; [LInt 1; LInt 2]; [LStr "a"; LStr "a"]]))))
    = Ok 2%nat.
Proof.
  apply (jackpot_counts_all_same _ (mkFrame ["Die 0"; "Die 1"]%string [1%Z; 2%Z; 3%Z] "Roll"
             [[LInt 4; LInt 4]; [LInt 1; LInt 2]; [LStr "a"; LStr "a"]])).
  - reflexivity.
  - repeat constructor.
Defined.

(** *** Analyzer.permute_counts and Analyzer.combo_counts *)

Lemma tuple_eq_eq : forall a b, tuple_eq a b = true -> a = b.
Proof.
  induction a as [| x a IH]; intros [| y b] H; simpl in H; try discriminate; [reflexivity |].
  apply andb_prop in H as [Hx Hr]. apply py_eq_eq in Hx. rewrite Hx, (IH b Hr). reflexivity.
Qed.

Lemma tuple_eq_refl : forall a, nan_free a = true -> tuple_eq a a = true.
Proof.
  induction a as [| x a IH]; intros H; simpl in *; [reflexivity |].
  apply andb_prop in H as [Hx Hr]. rewrite py_eq_refl, IH; [reflexivity | exact Hr |].
  destruct (is_nan x); [discriminate | reflexivity].
Qed.

Lemma tuple_eq_iff : forall k k', nan_free k = true -> tuple_eq k k' = true <-> k = k'.
Proof.
  intros k k' Hk. split; [apply tuple_eq_eq | intros <-; apply tuple_eq_refl; exact Hk].
Qed.

(** Adding a tuple to the counts raises the count read back for that tuple
    by one and leaves every other count alone. *)
Lemma vc_lookup_add : forall k x acc,
  nan_free k = true ->
  vc_lookup k (vc_add x acc) =
    (vc_lookup k acc + if row_eq_dec x k then 1 else 0)%nat.
Proof.
  intros k x acc Hk. unfold vc_lookup.
  induction acc as [| [k' c] acc IH]; simpl.
  - destruct (tuple_eq k x) eqn:E; destruct (row_eq_dec x k) as [-> | Hne]; try reflexivity.
    + apply tuple_eq_eq in E. congruence.
    + rewrite tuple_eq_refl in E by exact Hk. discriminate.
  - destruct (tuple_eq x k') eqn:Ex; simpl.
    + apply tuple_eq_eq in Ex. subst k'.
      destruct (tuple_eq k x) eqn:E; destruct (row_eq_dec x k) as [-> | Hne]; try lia.
      * apply tuple_eq_eq in E. congruence.
      * rewrite tuple_eq_refl in E by exact Hk. discriminate.
    + destruct (tuple_eq k k') eqn:E; [| exact IH].
      apply tuple_eq_eq in E. subst k'.
      destruct (row_eq_dec x k) as [-> | Hne]; [| lia].
      rewrite tuple_eq_refl in Ex by exact Hk. discriminate.
Qed.

Lemma value_counts_fold_lookup : forall k xs acc,
  nan_free k = true ->
  vc_lookup k (fold_left (fun acc x => vc_add x acc) xs acc) =
    (vc_lookup k acc + count_occ row_eq_dec xs k)%nat.
Proof.
  intros k xs. induction xs as [| x xs IH]; intros acc Hk; simpl; [lia |].
  rewrite IH, vc_lookup_add by exact Hk.
  destruct (row_eq_dec x k); lia.
Qed.

(** [value_counts()] read back at a NaN-free tuple is its number of
    occurrences. *)
Lemma value_counts_lookup : forall k xs,
  nan_free k = true -> vc_lookup k (value_counts xs) = count_occ row_eq_dec xs k.
Proof.
  intros k xs Hk. unfold value_counts. rewrite value_counts_fold_lookup by exact Hk.
  reflexivity.
Qed.

Lemma map_result_Forall2 : forall {A B} (f : A -> result B) l ys,
  map_result f l = Ok ys -> Forall2 (fun x y => f x = Ok y) l ys.
Proof.
  intros A B f l. induction l as [| x l IH]; intros ys H; simpl in H.
  - injection H as <-. constructor.
  - destruct (f x) as [y | e] eqn:Hf; simpl in H; [| discriminate].
    destruct (map_result f l) as [ys' | e] eqn:Hl; simpl in H; [| discriminate].
    injection H as <-. constructor; [exact Hf | apply IH; reflexivity].
Qed.

Lemma apply_rows_ok : forall f t ys,
  apply_rows f t = Ok ys -> map_result f (rows t) = Ok ys.
Proof.
  intros f t ys H. unfold apply_rows in H.
  destruct (columns t), (rows t); try discriminate; exact H.
Qed.

(** [Analyzer.permute_counts()]: the count it gives an ordered NaN-free
    tuple of outcomes is the number of trials that produced exactly that
    tuple, and tuples that never occurred count 0. *)
Theorem permute_counts_lookup :
  forall (a : Analyzer) (vc : list (list label * nat)) (k : list label),
    permute_counts a = Ok vc ->
    nan_free k = true ->
    exists t, results (game a) = Some t /\
      vc_lookup k vc = count_occ row_eq_dec (rows t) k.
Proof.
  intros a vc k H Hk. unfold permute_counts, game_results in H.
  destruct (results (game a)) as [t |] eqn:Ht; simpl in H; [| discriminate].
  destruct (apply_rows (fun row => Ok row) t) as [perms | e] eqn:Hp; simpl in H; [| discriminate].
  injection H as <-. exists t. split; [reflexivity |].
  rewrite value_counts_lookup by exact Hk. f_equal.
  apply apply_rows_ok, map_result_Forall2 in Hp.
  induction Hp as [| r p rs ps Hr _ IH]; [reflexivity |].
  injection Hr as ->. rewrite IH. reflexivity.
Qed.

Lemma permute_counts_lookup_witness :
  exists vc,
    permute_counts (mkAnalyzer (mkGame [] (Some (mkFrame ["Die 0"; "Die 1"]%string [1%Z; 2%Z; 3%Z]
      "Roll" [[LInt 1; LInt 2]; [LInt 2; LInt 1]; [LInt 1; LInt 2]])))) = Ok vc /\
    nan_free [LInt 1; LInt 2] = true /\
    exists t, results (game (mkAnalyzer (mkGame [] (Some (mkFrame ["Die 0"; "Die 1"]%string
      [1%Z; 2%Z; 3%Z] "Roll" [[LInt 1; LInt 2]; [LInt 2; LInt 1]; [LInt 1; LInt 2]]))))) = Some t /\
      vc_lookup [LInt 1; LInt 2] vc = count_occ row_eq_dec (rows t) [LInt 1; LInt 2].
Proof.
  eexists. split; [reflexivity |]. split; [reflexivity |].
  exact (permute_counts_lookup
           (mkAnalyzer (mkGame [] (Some (mkFrame ["Die 0"; "Die 1"]%string [1%Z; 2%Z; 3%Z]
              "Roll" [[LInt 1; LInt 2]; [LInt 2; LInt 1]; [LInt 1; LInt 2]]))))
           _ [LInt 1; LInt 2] eq_refl eq_refl).
Defined.

(** [Analyzer.combo_counts()]: the count it gives a NaN-free sorted tuple
    is the number of trials whose sorted outcomes are that tuple. *)
Theorem combo_counts_lookup :
  forall (a : Analyzer) (vc : list (list label * nat)) (k : list label),
    combo_counts a = Ok vc ->
    nan_free k = true ->
    exists t, results (game a) = Some t /\
      vc_lookup k vc = length (filter (sorts_to k) (rows t)).
Proof.
  intros a vc k H Hk. unfold combo_counts, game_results in H.
  destruct (results (game a)) as [t |] eqn:Ht; simpl in H; [| discriminate].
  destruct (apply_rows py_sorted t) as [combos | e] eqn:Hp; simpl in H; [| discriminate].
  injection H as <-. exists t. split; [reflexivity |].
  rewrite value_counts_lookup by exact Hk.
  apply apply_rows_ok, map_result_Forall2 in Hp.
  induction Hp as [| r c rs cs Hr _ IH]; [reflexivity |].
  simpl. unfold sorts_to at 1. rewrite Hr.
  destruct (row_eq_dec c k); simpl; rewrite IH; reflexivity.
Qed.

Lemma combo_counts_lookup_witness :
  exists vc,
    combo_counts (mkAnalyzer (mkGame [] (Some (mkFrame ["Die 0"; "Die 1"]%string [1%Z; 2%Z; 3%Z]
      "Roll" [[LInt 1; LInt 2]; [LInt 2; LInt 1]; [LInt 2; LInt 2]])))) = Ok vc /\
    nan_free [LInt 1; LInt 2] = true /\
    exists t, results (game (mkAnalyzer (mkGame [] (Some (mkFrame ["Die 0"; "Die 1"]%string
      [1%Z; 2%Z; 3%Z] "Roll" [[LInt 1; LInt 2]; [LInt 2; LInt 1]; [LInt 2; LInt 2]]))))) = Some t /\
      vc_lookup [LInt 1; LInt 2] vc = length (filter (sorts_to [LInt 1; LInt 2]) (rows t)).
Proof.
  eexists. split; [reflexivity |]. split; [reflexivity |].
  exact (combo_counts_lookup
           (mkAnalyzer (mkGame [] (Some (mkFrame ["Die 0"; "Die 1"]%string [1%Z; 2%Z; 3%Z]
              "Roll" [[LInt 1; LInt 2]; [LInt 2; LInt 1]; [LInt 2; LInt 2]]))))
           _ [LInt 1; LInt 2] eq_refl eq_refl).
Defined.

(** *** sorted(row) in Analyzer.combo_counts *)

Lemma string_compare_not_lt_trans : forall a b c,
  String.compare a b <> Lt -> String.compare b c <> Lt -> String.compare a c <> Lt.
Proof.
  induction a as [| x a IH]; intros [| y b] [| z c]; simpl; try congruence.
  unfold Ascii.compare.
  destruct (N.compare_spec (N_of_ascii x) (N_of_ascii y));
    destruct (N.compare_spec (N_of_ascii y) (N_of_ascii z));
    destruct (N.compare_spec (N_of_ascii x) (N_of_ascii z));
    try lia; try congruence.
  apply IH.
Qed.

Lemma sort_le_trans : forall a b c, sort_le a b -> sort_le b c -> sort_le a c.
Proof.
  intros [x | x |] [y | y |] [z | z |] [Ha [Hb H1]] [_ [Hc H2]];
    simpl in *; try discriminate; split; try reflexivity; split; try reflexivity.
  - injection H1 as H1. injection H2 as H2. apply Z.ltb_ge in H1, H2.
    simpl. f_equal. apply Z.ltb_ge. lia.
  - injection H1 as H1. injection H2 as H2. unfold str_lt in *. simpl. f_equal.
    unfold str_lt. destruct (String.compare z x) eqn:E; try reflexivity.
    exfalso. apply (string_compare_not_lt_trans z y x); [| | exact E];
      destruct (String.compare z y), (String.compare y x); congruence.
Qed.

Lemma sort_le_antisym : forall a b, sort_le a b -> sort_le b a -> a = b.
Proof.
  intros [x | x |] [y | y |] [Ha [Hb H1]] [_ [_ H2]]; simpl in *; try discriminate.
  - injection H1 as H1. injection H2 as H2. apply Z.ltb_ge in H1, H2. f_equal. lia.
  - injection H1 as H1. injection H2 as H2. unfold str_lt in *. f_equal.
    destruct (String.compare x y) eqn:E.
    + apply String.compare_eq_iff. exact E.
    + discriminate.
    + rewrite String.compare_antisym, E in H1. discriminate.
Qed.

Lemma py_lt_true_le : forall x y, py_lt x y = Ok true -> sort_le x y.
Proof.
  intros [a | a |] [b | b |] H; simpl in H; try discriminate;
    injection H as H; split; try reflexivity; split; try reflexivity; simpl.
  - apply Z.ltb_lt in H. f_equal. apply Z.ltb_ge. lia.
  - unfold str_lt in *. f_equal. rewrite String.compare_antisym.
    destruct (String.compare a b); simpl; congruence.
Qed.

Lemma insert_sorted_sorted : forall ys x zs,
  not_nan x -> Forall not_nan ys -> StronglySorted sort_le ys ->
  insert_sorted x ys = Ok zs ->
  StronglySorted sort_le zs /\ Permutation (x :: ys) zs.
Proof.
  induction ys as [| y ys IH]; intros x zs Hx Hys Hs H; simpl in H.
  - injection H as <-. split; [repeat constructor | reflexivity].
  - apply Forall_cons_iff in Hys as [Hy Hys]. apply StronglySorted_inv in Hs as [Hs Hhd].
    destruct (py_lt x y) as [[|] | e] eqn:Hlt; simpl in H; [| | discriminate].
    + injection H as <-. apply py_lt_true_le in Hlt.
      split; [| reflexivity].
      constructor; [constructor; assumption |].
      constructor; [exact Hlt |].
      eapply Forall_impl; [| exact Hhd]. intros w Hw. eapply sort_le_trans; eassumption.
    + destruct (insert_sorted x ys) as [r | e] eqn:Hi; simpl in H; [| discriminate].
      injection H as <-. destruct (IH x r Hx Hys Hs Hi) as [Hr Hp].
      split.
      * constructor; [exact Hr |].
        apply (Permutation_Forall Hp). constructor; [| exact Hhd].
        split; [exact Hy |]. split; [exact Hx | exact Hlt].
      * rewrite perm_swap. constructor. exact Hp.
Qed.

Lemma sorted_aux_sorted : forall xs acc zs,
  Forall not_nan acc -> Forall not_nan xs -> StronglySorted sort_le acc ->
  sorted_aux acc xs = Ok zs ->
  StronglySorted sort_le zs /\ Permutation (xs ++ acc) zs.
Proof.
  induction xs as [| x xs IH]; intros acc zs Hacc Hxs Hs H; simpl in H.
  - injection H as <-. split; [exact Hs | reflexivity].
  - apply Forall_cons_iff in Hxs as [Hx Hxs].
    destruct (insert_sorted x acc) as [acc' | e] eqn:Hi; simpl in H; [| discriminate].
    destruct (insert_sorted_sorted acc x acc' Hx Hacc Hs Hi) as [Hs' Hp'].
    assert (Hacc' : Forall not_nan acc') by
      (apply (Permutation_Forall Hp'); constructor; assumption).
    destruct (IH acc' zs Hacc' Hxs Hs' H) as [Hz Hp].
    split; [exact Hz |].
    rewrite <- Hp, <- Hp'. simpl. apply Permutation_middle.
Qed.

Lemma sorted_perm_unique : forall l1 l2,
  StronglySorted sort_le l1 -> StronglySorted sort_le l2 -> Permutation l1 l2 -> l1 = l2.
Proof.
  induction l1 as [| a l1 IH]; intros l2 H1 H2 Hp.
  - symmetry. apply Permutation_nil. exact Hp.
  - destruct l2 as [| b l2]; [apply Permutation_sym, Permutation_nil in Hp; discriminate |].
    apply StronglySorted_inv in H1 as [H1 Ha]. apply StronglySorted_inv in H2 as [H2 Hb].
    assert (Eab : a = b).
    { assert (Ha2 : In a (b :: l2)) by (apply (Permutation_in _ Hp); left; reflexivity).
      assert (Hb1 : In b (a :: l1)) by (apply (Permutation_in _ (Permutation_sym Hp)); left; reflexivity).
      destruct Ha2 as [-> | Ha2]; [reflexivity |].
      destruct Hb1 as [-> | Hb1]; [reflexivity |].
      rewrite Forall_forall in Ha, Hb.
      apply sort_le_antisym; [apply Ha | apply Hb]; assumption. }
    subst b. f_equal. apply IH; [exact H1 | exact H2 |].
    apply Permutation_cons_inv in Hp. exact Hp.
Qed.

(** [tuple(sorted(row))] in [combo_counts]: two trials without NaN whose
    outcomes are rearrangements of each other get the same sorted tuple,
    so they are counted under one combination. *)
Theorem sorted_permutation_invariant :
  forall (r1 r2 s1 s2 : list label),
    nan_free r1 = true -> Permutation r1 r2 ->
    py_sorted r1 = Ok s1 -> py_sorted r2 = Ok s2 ->
    s1 = s2.
Proof.
  intros r1 r2 s1 s2 Hn Hp H1 H2.
  assert (Hr1 : Forall not_nan r1) by exact (nan_free_Forall r1 Hn).
  assert (Hr2 : Forall not_nan r2) by exact (Permutation_Forall Hp Hr1).
  destruct (sorted_aux_sorted r1 [] s1 (Forall_nil _) Hr1 (SSorted_nil _) H1) as [Hs1 Hp1].
  destruct (sorted_aux_sorted r2 [] s2 (Forall_nil _) Hr2 (SSorted_nil _) H2) as [Hs2 Hp2].
  apply sorted_perm_unique; [exact Hs1 | exact Hs2 |].
  rewrite app_nil_r in Hp1, Hp2. rewrite <- Hp1, <- Hp2. exact Hp.
Qed.

Lemma sorted_permutation_invariant_witness :
  py_sorted [LStr "b"; LStr "a"; LStr "b"] = Ok [LStr "a"; LStr "b"; LStr "b"] /\
  py_sorted [LStr "b"; LStr "b"; LStr "a"] = Ok [LStr "a"; LStr "b"; LStr "b"] /\
  [LStr "a"; LStr "b"; LStr "b"] = [LStr "a"; LStr "b"; LStr "b"].
Proof.
  split; [reflexivity |]. split; [reflexivity |].
  apply (sorted_permutation_invariant [LStr "b"; LStr "a"; LStr "b"] [LStr "b"; LStr "b"; LStr "a"]).
  - reflexivity.
  - apply perm_skip, perm_swap.
  - reflexivity.
  - reflexivity.
Defined.

(** *** Die.change_weight *)

(** A second [change_weight] on the same face overrides the first: the die
    ends as if only the second call had been made. *)
Theorem change_weight_last_wins :
  forall (d d1 : Die) (face : label) (w1 w2 : pyobj),
    change_weight d face w1 = Ok d1 ->
    change_weight d1 face w2 = change_weight d face w2.
Proof.
  intros d d1 face w1 w2 H.
  destruct (change_weight_checks _ _ _ _ H) as [E _].
  destruct (change_weight_ok _ _ _ _ H) as [q1 [_ ->]].
  unfold change_weight. cbn [faces weights df]. rewrite E. cbn [negb].
  destruct (negb (is_int_or_float w2)); [reflexivity |].
  destruct (float64_setitem w2) as [q2 | e]; cbn [bind]; [| reflexivity].
  unfold df_set. rewrite map_map. do 2 f_equal.
  apply map_ext. intros [k v]. simpl.
  destruct (py_eq k face) eqn:Ek; simpl; rewrite ?Ek; reflexivity.
Qed.

Lemma change_weight_last_wins_witness :
  exists d1,
    change_weight (die_fields [LInt 1; LInt 2]) (LInt 2) (PInt 5) = Ok d1 /\
    change_weight d1 (LInt 2) (PFloat (f_ratio 1 2)) =
      change_weight (die_fields [LInt 1; LInt 2]) (LInt 2) (PFloat (f_ratio 1 2)).
Proof.
  eexists. split; [reflexivity |].
  exact (change_weight_last_wins (die_fields [LInt 1; LInt 2]) _ (LInt 2) (PInt 5)
           (PFloat (f_ratio 1 2)) eq_refl).
Defined.

(** [change_weight] calls on two different faces can be made in either
    order. *)
Theorem change_weight_commute :
  forall (d d1 d12 : Die) (f1 f2 : label) (w1 w2 : pyobj),
    f1 <> f2 ->
    change_weight d f1 w1 = Ok d1 ->
    change_weight d1 f2 w2 = Ok d12 ->
    exists d2, change_weight d f2 w2 = Ok d2 /\ change_weight d2 f1 w1 = Ok d12.
Proof.
  intros d d1 d12 f1 f2 w1 w2 Hne H1 H2.
  destruct (change_weight_checks _ _ _ _ H1) as [C1 I1].
  destruct (change_weight_ok _ _ _ _ H1) as [q1 [Hq1 ->]].
  destruct (change_weight_checks _ _ _ _ H2) as [C2 I2]. cbn [faces] in C2.
  destruct (change_weight_ok _ _ _ _ H2) as [q2 [Hq2 ->]]. cbn [faces weights df].
  exists (mkDie (faces d) (weights d) (df_set (df d) f2 q2)).
  rewrite (change_weight_eq d f2 w2 C2 I2), Hq2. split; [reflexivity |].
  rewrite (change_weight_eq (mkDie (faces d) (weights d) (df_set (df d) f2 q2)) f1 w1 C1 I1), Hq1.
  cbn [bind faces weights df].
  unfold df_set. rewrite !map_map. do 2 f_equal.
  apply map_ext. intros [k v]. simpl.
  destruct (py_eq k f1) eqn:Ek1, (py_eq k f2) eqn:Ek2; simpl; rewrite ?Ek1, ?Ek2; try reflexivity.
  apply py_eq_eq in Ek1, Ek2. subst. contradiction.
Qed.

Lemma change_weight_commute_witness :
  exists d1 d12,
    change_weight (die_fields [LInt 1; LInt 2; LInt 3]) (LInt 1) (PInt 0) = Ok d1 /\
    change_weight d1 (LInt 3) (PInt 4) = Ok d12 /\
    exists d2, change_weight (die_fields [LInt 1; LInt 2; LInt 3]) (LInt 3) (PInt 4) = Ok d2 /\
               change_weight d2 (LInt 1) (PInt 0) = Ok d12.
Proof.
  destruct (change_weight (die_fields [LInt 1; LInt 2; LInt 3]) (LInt 1) (PInt 0))
    as [d1 | e] eqn:H1; [| vm_compute in H1; discriminate].
  destruct (change_weight d1 (LInt 3) (PInt 4)) as [d12 | e] eqn:H2;
    [| injection H1 as <-; vm_compute in H2; discriminate].
  exists d1, d12. split; [reflexivity |]. split; [exact H2 |].
  apply (change_weight_commute (die_fields [LInt 1; LInt 2; LInt 3]) d1 d12 (LInt 1) (LInt 3)
           (PInt 0) (PInt 4)); [discriminate | exact H1 | exact H2].
Defined.

(** *** Die.roll and Game.play: the random stream *)

Lemma draw_k_app : forall k1 k2 pop cum total hi g xs g1 ys g2,
  draw_k k1 pop cum total hi g = Ok (xs, g1) ->
  draw_k k2 pop cum total hi g1 = Ok (ys, g2) ->
  draw_k (k1 + k2) pop cum total hi g = Ok ((xs ++ ys)%list, g2).
Proof.
  induction k1 as [| k1 IH]; intros k2 pop cum total hi g xs g1 ys g2 H1 H2; simpl in *.
  - injection H1 as <- <-. exact H2.
  - destruct (py_index pop (bisect_right cum (fmul (rand g (pos g)) total) 0 hi)) as [x | e];
      simpl in *; [| discriminate].
    destruct (draw_k k1 pop cum total hi (mkRng (rand g) (S (pos g)))) as [[rest g'] | e] eqn:Hd;
      simpl in H1; [| discriminate].
    injection H1 as <- <-. rewrite (IH _ _ _ _ _ _ _ _ _ _ Hd H2). reflexivity.
Qed.

(** [roll(k1)] followed by [roll(k2)] gives the faces [roll(k1 + k2)]
    gives from the same state of the generator, and leaves it in the same
    state. *)
Theorem roll_concat :
  forall (d : Die) (k1 k2 : Z) (gen gen1 gen2 : rng) (xs ys : list label),
    (0 <= k1)%Z -> (0 <= k2)%Z ->
    roll d k1 gen = Ok (xs, gen1) ->
    roll d k2 gen1 = Ok (ys, gen2) ->
    roll d (k1 + k2) gen = Ok ((xs ++ ys)%list, gen2).
Proof.
  intros d k1 k2 gen gen1 gen2 xs ys H1 H2 R1 R2.
  destruct (roll_ok_draw _ _ _ _ _ R1) as [_ [total [Hd1 Heq]]].
  rewrite Heq in R2. rewrite Heq, Z2Nat.inj_add by assumption.
  exact (draw_k_app _ _ _ _ _ _ _ _ _ _ _ Hd1 R2).
Qed.

Lemma roll_concat_witness :
  exists xs ys gen1 gen2,
    roll (die_fields [LInt 1; LInt 2; LInt 3]) 2 (sevenths_rng)
      = Ok (xs, gen1) /\
    roll (die_fields [LInt 1; LInt 2; LInt 3]) 3 gen1 = Ok (ys, gen2) /\
    roll (die_fields [LInt 1; LInt 2; LInt 3]) 5 (sevenths_rng)
      = Ok ((xs ++ ys)%list, gen2).
Proof.
  destruct (roll (die_fields [LInt 1; LInt 2; LInt 3]) 2 sevenths_rng) as [[xs gen1] | e] eqn:R1;
    [| vm_compute in R1; discriminate].
  destruct (roll (die_fields [LInt 1; LInt 2; LInt 3]) 3 gen1) as [[ys gen2] | e] eqn:R2;
    [| vm_compute in R1; injection R1 as <- <-; vm_compute in R2; discriminate].
  exists xs, ys, gen1, gen2. split; [reflexivity |]. split; [exact R2 |].
  apply (roll_concat (die_fields [LInt 1; LInt 2; LInt 3]) 2 3 sevenths_rng gen1 gen2 xs ys);
    [lia | lia | exact R1 | exact R2].
Defined.

Lemma draw_k_stream : forall k pop cum total hi g xs g',
  draw_k k pop cum total hi g = Ok (xs, g') ->
  rand g' = rand g /\ pos g' = (pos g + k)%nat.
Proof.
  induction k as [| k IH]; intros pop cum total hi g xs g' H; simpl in H.
  - injection H as _ <-. split; [reflexivity | lia].
  - destruct (py_index pop (bisect_right cum (fmul (rand g (pos g)) total) 0 hi)) as [x | e];
      simpl in H; [| discriminate].
    destruct (draw_k k pop cum total hi (mkRng (rand g) (S (pos g)))) as [[rest g1] | e] eqn:Hd;
      simpl in H; [| discriminate].
    injection H as _ <-. destruct (IH _ _ _ _ _ _ _ Hd) as [Hr Hp].
    simpl in Hr, Hp. split; [exact Hr | lia].
Qed.

Lemma roll_stream : forall d k gen xs gen',
  roll d k gen = Ok (xs, gen') ->
  rand gen' = rand gen /\ pos gen' = (pos gen + Z.to_nat k)%nat.
Proof.
  intros d k gen xs gen' H.
  destruct (roll_ok_draw _ _ _ _ _ H) as [_ [total [Hd _]]].
  exact (draw_k_stream _ _ _ _ _ _ _ _ Hd).
Qed.

Lemma roll_each_stream : forall ds gen row gen',
  roll_each ds gen = Ok (row, gen') ->
  rand gen' = rand gen /\ pos gen' = (pos gen + length ds)%nat.
Proof.
  induction ds as [| d ds IH]; intros gen row gen' H; simpl in H.
  - injection H as _ <-. split; [reflexivity | simpl; lia].
  - destruct (roll d 1 gen) as [[outs g1] | e] eqn:Hr; simpl in H; [| discriminate].
    destruct (py_index outs 0) as [o | e]; simpl in H; [| discriminate].
    destruct (roll_each ds g1) as [[rest g2] | e] eqn:He; simpl in H; [| discriminate].
    injection H as _ <-. destruct (roll_stream _ _ _ _ _ Hr) as [Hr1 Hp1].
    destruct (IH _ _ _ He) as [Hr2 Hp2]. simpl in Hp1.
    split; [congruence | simpl; lia].
Qed.

Lemma play_rolls_stream : forall n ds gen res gen',
  play_rolls n ds gen = Ok (res, gen') ->
  rand gen' = rand gen /\ pos gen' = (pos gen + n * length ds)%nat.
Proof.
  induction n as [| n IH]; intros ds gen res gen' H; simpl in H.
  - injection H as _ <-. split; [reflexivity | lia].
  - destruct (roll_each ds gen) as [[row g1] | e] eqn:Hr; simpl in H; [| discriminate].
    destruct (play_rolls n ds g1) as [[rest g2] | e] eqn:Hp; simpl in H; [| discriminate].
    injection H as _ <-. destruct (roll_each_stream _ _ _ _ Hr) as [Hr1 Hp1].
    destruct (IH _ _ _ _ Hp) as [Hr2 Hp2].
    split; [congruence | simpl; lia].
Qed.

(** [Game.play(rolls)] calls [random()] exactly [rolls * len(dice)] times:
    one draw per die per trial ([max rolls 0] trials). *)
Theorem play_consumes_draws :
  forall (g : Game) (n : Z) (gen : rng) (g' : Game) (gen' : rng),
    play g n gen = Ok (g', gen') ->
    rand gen' = rand gen /\ pos gen' = (pos gen + Z.to_nat n * length (dice g))%nat.
Proof.
  intros g n gen g' gen' H. unfold play in H.
  destruct (play_rolls (Z.to_nat n) (dice g) gen) as [[res g1] | e] eqn:Hp;
    simpl in H; [| discriminate].
  injection H as _ <-. exact (play_rolls_stream _ _ _ _ _ Hp).
Qed.

Lemma play_consumes_draws_witness :
  exists g' gen',
    play (mkGame [die_fields [LInt 1; LInt 2]; die_fields [LInt 5; LInt 6; LInt 7]] None) 4 zero_rng
      = Ok (g', gen') /\ pos gen' = 8%nat.
Proof.
  destruct (play (mkGame [die_fields [LInt 1; LInt 2]; die_fields [LInt 5; LInt 6; LInt 7]] None)
              4 zero_rng) as [[g' gen'] | e] eqn:Hp; [| vm_compute in Hp; discriminate].
  exists g', gen'. split; [reflexivity |].
  exact (proj2 (play_consumes_draws _ 4 zero_rng g' gen' Hp)).
Defined.

(** *** Each tuple is listed once *)

Lemma vc_add_keys : forall x acc,
  map fst (vc_add x acc) =
    if existsb (fun kc => tuple_eq x (fst kc)) acc then map fst acc
    else (map fst acc ++ [x])%list.
Proof.
  intros x acc. induction acc as [| [k c] acc IH]; simpl; [reflexivity |].
  destruct (tuple_eq x k); simpl; [reflexivity |]. rewrite IH.
  destruct (existsb (fun kc => tuple_eq x (fst kc)) acc); reflexivity.
Qed.

Lemma vc_add_NoDup : forall x acc,
  nan_free x = true -> NoDup (map fst acc) -> NoDup (map fst (vc_add x acc)).
Proof.
  intros x acc Hx Hnd. rewrite vc_add_keys.
  destruct (existsb (fun kc => tuple_eq x (fst kc)) acc) eqn:E; [exact Hnd |].
  apply NoDup_app; [exact Hnd | repeat constructor; intros [] |].
  intros k Hk [Hxk | []]. subst k.
  apply Bool.not_true_iff_false in E. apply E. apply existsb_exists.
  apply in_map_iff in Hk as [[k' c] [Hk' Hin]]. simpl in Hk'. subst k'.
  exists (x, c). split; [exact Hin | simpl; apply tuple_eq_refl; exact Hx].
Qed.

Lemma value_counts_NoDup : forall xs,
  Forall (fun r => nan_free r = true) xs -> NoDup (map fst (value_counts xs)).
Proof.
  intros xs Hxs. unfold value_counts.
  assert (G : forall acc, NoDup (map fst acc) ->
            NoDup (map fst (fold_left (fun acc k => vc_add k acc) xs acc))).
  { induction Hxs as [| x xs Hx _ IH]; intros acc Hacc; simpl; [exact Hacc |].
    apply IH, vc_add_NoDup; assumption. }
  apply G. constructor.
Qed.

Lemma nan_free_perm : forall r s,
  nan_free r = true -> Permutation r s -> nan_free s = true.
Proof.
  intros r s Hr Hp. unfold nan_free in *. apply forallb_forall. intros x Hx.
  rewrite forallb_forall in Hr. apply Hr. apply (Permutation_in _ (Permutation_sym Hp)). exact Hx.
Qed.

(** On a table without NaN, [permute_counts()] and [combo_counts()] list
    every tuple at most once. *)
Theorem counts_keys_distinct :
  forall (a : Analyzer) (t : DataFrame),
    results (game a) = Some t ->
    Forall (fun r => nan_free r = true) (rows t) ->
    (forall vc, permute_counts a = Ok vc -> NoDup (map fst vc)) /\
    (forall vc, combo_counts a = Ok vc -> NoDup (map fst vc)).
Proof.
  intros a t Ht Hn. split; intros vc H.
  - unfold permute_counts, game_results in H. rewrite Ht in H. simpl in H.
    destruct (apply_rows (fun row => Ok row) t) as [perms | e] eqn:Hp; simpl in H; [| discriminate].
    injection H as <-. apply value_counts_NoDup.
    apply apply_rows_ok, map_result_Forall2 in Hp.
    induction Hp as [| r p rs ps Hr _ IH]; [constructor |].
    injection Hr as <-. apply Forall_cons_iff in Hn as [Hr Hn].
    constructor; [exact Hr | exact (IH Hn)].
  - unfold combo_counts, game_results in H. rewrite Ht in H. simpl in H.
    destruct (apply_rows py_sorted t) as [combos | e] eqn:Hp; simpl in H; [| discriminate].
    injection H as <-. apply value_counts_NoDup.
    apply apply_rows_ok, map_result_Forall2 in Hp.
    induction Hp as [| r c rs cs Hr _ IH]; [constructor |].
    apply Forall_cons_iff in Hn as [Hrn Hn].
    constructor; [| exact (IH Hn)].
    pose proof (nan_free_Forall r Hrn) as Hf.
    destruct (sorted_aux_sorted r [] c (Forall_nil _) Hf (SSorted_nil _) Hr) as [_ Hp'].
    rewrite app_nil_r in Hp'. exact (nan_free_perm r c Hrn Hp').
Qed.

Lemma counts_keys_distinct_witness :
  results (game (mkAnalyzer (mkGame [] (Some (mkFrame ["Die 0"; "Die 1"]%string [1%Z; 2%Z; 3%Z]
      "Roll" [[LInt 1; LInt 2]; [LInt 2; LInt 1]; [LInt 1; LInt 2]]))))) =
    Some (mkFrame ["Die 0"; "Die 1"]%string [1%Z; 2%Z; 3%Z]
      "Roll" [[LInt 1; LInt 2]; [LInt 2; LInt 1]; [LInt 1; LInt 2]]) /\
  NoDup (map fst (value_counts [[LInt 1; LInt 2]; [LInt 1; LInt 2]; [LInt 1; LInt 2]])).
Proof.
  split; [reflexivity |].
  apply (proj2 (counts_keys_distinct
    (mkAnalyzer (mkGame [] (Some (mkFrame ["Die 0"; "Die 1"]%string [1%Z; 2%Z; 3%Z]
      "Roll" [[LInt 1; LInt 2]; [LInt 2; LInt 1]; [LInt 1; LInt 2]]))))
    _ eq_refl ltac:(repeat constructor))).
  reflexivity.
Defined.
